(** * Temperature analysis: rolling baseline, anomaly flags, seasonal statistics
    and the live-reading check of [app.py].

    Numbers.  The program computes on IEEE doubles held in pandas columns.  Here
    a column cell is a real number or the missing value [NaN]; arithmetic is the
    exact one on reals, a missing operand makes the result missing and every
    comparison with a missing operand is false, as for a float NaN.  Rounding
    and infinities are left out.  Input readings carry a temperature in every
    row; derived columns may hold [NaN].

    Objects.  A pandas DataFrame is a mutable object: the functions of the
    program assign columns on the frame they are handed and return that same
    frame.  Frames live in a heap and are passed by reference. *)

From Stdlib Require Import Reals Lra Lia String Ascii Bool Arith ZArith List.
From Stdlib Require Import Sorting.Sorted Sorting.Permutation OrdersEx RelationClasses.
Import ListNotations.

Open Scope R_scope.

(** ** Cells: reals with a missing value *)

Module Cell.

Definition fnum : Type := option R.

Definition NaN : fnum := None.

Definition lift2 (op : R -> R -> R) (a b : fnum) : fnum :=
  match a, b with
  | Some x, Some y => Some (op x y)
  | _, _ => None
  end.

Definition fadd : fnum -> fnum -> fnum := lift2 Rplus.
Definition fsub : fnum -> fnum -> fnum := lift2 Rminus.
Definition fmul : fnum -> fnum -> fnum := lift2 Rmult.

Definition Rltb (x y : R) : bool := if Rlt_dec x y then true else false.
Definition Rleb (x y : R) : bool := if Rle_dec x y then true else false.

(** [a < b], [a > b] and [a <= b] on cells: false as soon as one side is missing. *)
Definition flt (a b : fnum) : bool :=
  match a, b with
  | Some x, Some y => Rltb x y
  | _, _ => false
  end.

Definition fgt (a b : fnum) : bool := flt b a.

Definition fle (a b : fnum) : bool :=
  match a, b with
  | Some x, Some y => Rleb x y
  | _, _ => false
  end.

End Cell.
Import Cell.

(** ** Readings and frames *)

Record Reading : Type := mkReading {
  city : string;
  timestamp : Z;
  season : string;
  temperature : R
}.

(** A frame: the rows read from the CSV file and the three columns the program
    may assign; a column that was never assigned is absent. *)
Record DataFrame : Type := mkFrame {
  rows : list Reading;
  moving_avg : option (list fnum);
  moving_std : option (list fnum);
  anomaly : option (list bool)
}.

(** [load_data]: the frame of a parsed file has the four input columns only. *)
Definition load_data (file : list Reading) : DataFrame :=
  mkFrame file None None None.

Definition temperatures (df : DataFrame) : list R := map temperature (rows df).

(** [data['moving_avg'] = col] and its two siblings. *)
Definition set_moving_avg (col : list fnum) (df : DataFrame) : DataFrame :=
  mkFrame (rows df) (Some col) (moving_std df) (anomaly df).

Definition set_moving_std (col : list fnum) (df : DataFrame) : DataFrame :=
  mkFrame (rows df) (moving_avg df) (Some col) (anomaly df).

Definition set_anomaly (col : list bool) (df : DataFrame) : DataFrame :=
  mkFrame (rows df) (moving_avg df) (moving_std df) (Some col).

(** ** Statistics of a list of values *)

Module Stats.

Definition sum (l : list R) : R := fold_right Rplus 0 l.

(** Delta degrees of freedom of pandas' [std]: the divisor is [n - ddof]. *)
Definition ddof : nat := 1.

(** [mean]: missing when there is no observation. *)
Definition mean (l : list R) : fnum :=
  match l with
  | [] => NaN
  | _ :: _ => Some (sum l / INR (length l))
  end.

Definition sq_dev (m : R) (l : list R) : R := sum (map (fun x => (x - m) ^ 2) l).

(** [std]: missing unless there are more than [ddof] observations. *)
Definition std (l : list R) : fnum :=
  if (ddof <? length l)%nat
  then Some (sqrt (sq_dev (sum l / INR (length l)) l / INR (length l - ddof)))
  else NaN.

End Stats.

(** ** Rolling windows: [Series.rolling(window=w)] *)

Module Rolling.

(** The last [w] values of a list (all of them when there are fewer). *)
Definition lastn (w : nat) (l : list R) : list R := skipn (length l - w) l.

(** The window slides over the column: the new value enters at the back and the
    oldest leaves once more than [w] values are held. *)
Definition push (w : nat) (buf : list R) (x : R) : list R := lastn w (buf ++ [x]).

(** One output cell per input cell.  [min_periods] defaults to the window
    size, so the statistic is missing until the window is full. *)
Fixpoint roll (stat : list R -> fnum) (w : nat) (buf xs : list R) : list fnum :=
  match xs with
  | [] => []
  | x :: rest =>
      let buf' := push w buf x in
      (if (w <=? length buf')%nat then stat buf' else NaN) :: roll stat w buf' rest
  end.

Definition rolling_mean (w : nat) (xs : list R) : list fnum := roll Stats.mean w [] xs.
Definition rolling_std (w : nat) (xs : list R) : list fnum := roll Stats.std w [] xs.

End Rolling.

(** ** Column arithmetic: element by element, rows aligned by position *)

Module Col.

Fixpoint map2 {A B C : Type} (f : A -> B -> C) (la : list A) (lb : list B) : list C :=
  match la, lb with
  | a :: la', b :: lb' => f a b :: map2 f la' lb'
  | _, _ => []
  end.

Definition of_values (l : list R) : list fnum := map Some l.
Definition scale (k : R) (c : list fnum) : list fnum := map (fmul (Some k)) c.
Definition add : list fnum -> list fnum -> list fnum := map2 fadd.
Definition sub : list fnum -> list fnum -> list fnum := map2 fsub.
Definition gt : list fnum -> list fnum -> list bool := map2 fgt.
Definition lt : list fnum -> list fnum -> list bool := map2 flt.
Definition or : list bool -> list bool -> list bool := map2 orb.

End Col.

(** ** The interpreter state: a heap of frames and what was written to the page *)

Definition ref : Type := nat.
Bind Scope nat_scope with ref.

Inductive fetched : Type :=
  | FetchedTemp (t : R)
  | FetchedError (code : Z) (message : string)
  | FetchedNone.

(** The lines [st.write] puts on the page in the monitoring part. *)
Inductive message : Type :=
  | CurrentTemperature (city : string) (current_temp : fetched)
  | WithinRange
  | OutsideRange
  | FailedToFetch.

Record world : Type := mkWorld {
  heap : list DataFrame;
  written : list message
}.

(** Exceptions are named by their Python class. *)
Definition exn : Type := string.

Inductive res (A : Type) : Type :=
  | Ok (a : A)
  | Raise (e : exn).
Arguments Ok {A} a.
Arguments Raise {A} e.

Definition M (A : Type) : Type := world -> res A * world.

Definition ret {A : Type} (a : A) : M A := fun w => (Ok a, w).

Definition bind {A B : Type} (m : M A) (k : A -> M B) : M B :=
  fun w =>
    match m w with
    | (Ok a, w') => k a w'
    | (Raise e, w') => (Raise e, w')
    end.

Definition raise {A : Type} (e : exn) : M A := fun w => (Raise e, w).

Notation "x <- m ;; k" := (bind m (fun x => k))
  (at level 61, m at next level, right associativity).
Notation "m ;;; k" := (bind m (fun _ => k))
  (at level 61, right associativity).

Definition st_write (msg : message) : M unit :=
  fun w => (Ok tt, mkWorld (heap w) (written w ++ [msg])).

Fixpoint replace_at {A : Type} (i : nat) (a : A) (l : list A) : list A :=
  match l, i with
  | [], _ => []
  | _ :: l', O => a :: l'
  | b :: l', S j => b :: replace_at j a l'
  end.

Definition new_frame (df : DataFrame) : M ref :=
  fun w => (Ok (length (heap w)), mkWorld (heap w ++ [df]) (written w)).

Definition read_frame (r : ref) : M DataFrame :=
  fun w =>
    match nth_error (heap w) r with
    | Some df => (Ok df, w)
    | None => (Raise "ReferenceError"%string, w)
    end.

Definition update_frame (r : ref) (f : DataFrame -> DataFrame) : M unit :=
  fun w =>
    match nth_error (heap w) r with
    | Some df => (Ok tt, mkWorld (replace_at r (f df) (heap w)) (written w))
    | None => (Raise "ReferenceError"%string, w)
    end.

(** ** The functions of [app.py] *)

(** [calculate_moving_average(data, window=30)]: assigns the two rolling columns
    on [data] and returns [data] itself. *)
Definition calculate_moving_average (data : ref) (window : nat) : M ref :=
  df <- read_frame data ;;
  update_frame data (set_moving_avg (Rolling.rolling_mean window (temperatures df))) ;;;
  df' <- read_frame data ;;
  update_frame data (set_moving_std (Rolling.rolling_std window (temperatures df'))) ;;;
  ret data.

Definition default_window : nat := 30.

(** The mask of [detect_anomalies]:
    [(temperature > moving_avg + 2 * moving_std) | (temperature < moving_avg - 2 * moving_std)]. *)
Definition anomaly_mask (temp : list R) (avg sd : list fnum) : list bool :=
  Col.or
    (Col.gt (Col.of_values temp) (Col.add avg (Col.scale 2 sd)))
    (Col.lt (Col.of_values temp) (Col.sub avg (Col.scale 2 sd))).

(** [detect_anomalies(data)]: reading a column that was never assigned raises
    [KeyError]. *)
Definition detect_anomalies (data : ref) : M ref :=
  df <- read_frame data ;;
  match moving_avg df, moving_std df with
  | Some avg, Some sd =>
      update_frame data (set_anomaly (anomaly_mask (temperatures df) avg sd)) ;;;
      ret data
  | _, _ => raise "KeyError"%string
  end.

(** [parallel_analyze(city_data)]. *)
Definition parallel_analyze (city_data : ref) : M ref :=
  city_data <- calculate_moving_average city_data default_window ;;
  city_data <- detect_anomalies city_data ;;
  ret city_data.

(** ** Seasonal statistics: [groupby(['city', 'season'])['temperature'].agg(['mean', 'std'])] *)

Module Key.

Definition t : Type := (string * string)%type.

Definition of_reading (r : Reading) : t := (city r, season r).

(** Group keys are ordered by city, then by season. *)
Definition compare (a b : t) : comparison :=
  match String_as_OT.compare (fst a) (fst b) with
  | Eq => String_as_OT.compare (snd a) (snd b)
  | c => c
  end.

Definition lt (a b : t) : Prop := compare a b = Lt.

Definition eqb (a b : t) : bool :=
  String.eqb (fst a) (fst b) && String.eqb (snd a) (snd b).

End Key.

Record SeasonalStat : Type := mkStat {
  stat_city : string;
  stat_season : string;
  stat_mean : fnum;
  stat_std : fnum
}.

Definition stat_key (st : SeasonalStat) : Key.t := (stat_city st, stat_season st).

(** A row joins the group of its key; a key seen for the first time opens a
    group at its place in the order of the keys. *)
Fixpoint add_to_groups (k : Key.t) (x : R) (gs : list (Key.t * list R))
  : list (Key.t * list R) :=
  match gs with
  | [] => [(k, [x])]
  | (k', xs) :: gs' =>
      match Key.compare k k' with
      | Eq => (k', xs ++ [x]) :: gs'
      | Lt => (k, [x]) :: gs
      | Gt => (k', xs) :: add_to_groups k x gs'
      end
  end.

Definition groupby (data : list Reading) : list (Key.t * list R) :=
  fold_left (fun gs r => add_to_groups (Key.of_reading r) (temperature r) gs) data [].

Definition agg (g : Key.t * list R) : SeasonalStat :=
  mkStat (fst (fst g)) (snd (fst g)) (Stats.mean (snd g)) (Stats.std (snd g)).

Definition aggregate (data : list Reading) : list SeasonalStat :=
  map agg (groupby data).

(** [seasonal_statistics(data)]: a fresh table, one row per group. *)
Definition seasonal_statistics (data : ref) : M (list SeasonalStat) :=
  df <- read_frame data ;;
  ret (aggregate (rows df)).

(** ** The live reading *)

Record response : Type := mkResponse {
  status_code : Z;
  json_main_temp : R
}.

Definition weather_url (city api_key : string) : string :=
  ("https://api.openweathermap.org/data/2.5/weather?q=" ++ city
   ++ "&appid=" ++ api_key ++ "&units=metric")%string.

Definition invalid_key_message : string :=
  "Invalid API key. Please see https://openweathermap.org/faq#error401 for more info.".

(** [fetch_temperature_sync(city, api_key)]; the network is the function
    [requests_get]. *)
Definition fetch_temperature_sync (requests_get : string -> response)
    (city api_key : string) : fetched :=
  let response := requests_get (weather_url city api_key) in
  if (status_code response =? 200)%Z then FetchedTemp (json_main_temp response)
  else if (status_code response =? 401)%Z then FetchedError 401 invalid_key_message
  else FetchedNone.

(** [x.iloc[0]] and [x.values[0]]: position 0 of an empty column raises
    [IndexError]. *)
Definition first_of {A : Type} (l : list A) : M A :=
  match l with
  | [] => raise "IndexError"%string
  | a :: _ => ret a
  end.

Definition select_stats (season_stats : list SeasonalStat) (city season : string)
  : list SeasonalStat :=
  filter (fun st => String.eqb (stat_city st) city && String.eqb (stat_season st) season)
    season_stats.

Definition lower_bound (mean_temp std_temp : fnum) : fnum :=
  fsub mean_temp (fmul (Some 2) std_temp).

Definition upper_bound (mean_temp std_temp : fnum) : fnum :=
  fadd mean_temp (fmul (Some 2) std_temp).

(** [lower <= current_temp <= upper]: ordering a float against a dict (or
    [None]) raises [TypeError]. *)
Definition in_range (lower : fnum) (current_temp : fetched) (upper : fnum) : M bool :=
  match current_temp with
  | FetchedTemp t => ret (fle lower (Some t) && fle (Some t) upper)
  | FetchedError _ _ => raise "TypeError"%string
  | FetchedNone => raise "TypeError"%string
  end.

(** Lines 108 to 118 of [main]: the check of the reading against the statistics
    of [(city, season)]. *)
Definition assess (season_stats : list SeasonalStat) (city season : string)
    (current_temp : fetched) : M unit :=
  let stats := select_stats season_stats city season in
  mean_temp <- first_of (map stat_mean stats) ;;
  std_temp <- first_of (map stat_std stats) ;;
  let lower := lower_bound mean_temp std_temp in
  let upper := upper_bound mean_temp std_temp in
  ok <- in_range lower current_temp upper ;;
  if ok then st_write WithinRange else st_write OutsideRange.

(** Lines 104 to 120 of [main]. *)
Definition monitoring (city_data : ref) (season_stats : list SeasonalStat)
    (city : string) (current_temp : fetched) : M unit :=
  match current_temp with
  | FetchedNone => st_write FailedToFetch
  | _ =>
      st_write (CurrentTemperature city current_temp) ;;;
      df <- read_frame city_data ;;
      season <- first_of (map season (rows df)) ;;
      assess season_stats city season current_temp
  end.

(** [data[data['city'] == city]]: a new frame with the rows of the city. *)
Fixpoint select {A : Type} (mask : list bool) (l : list A) : list A :=
  match mask, l with
  | b :: mask', a :: l' => if b then a :: select mask' l' else select mask' l'
  | _, _ => []
  end.

Definition in_city (c : string) (r : Reading) : bool := String.eqb (city r) c.

Definition city_mask (city : string) (df : DataFrame) : list bool :=
  map (in_city city) (rows df).

Definition select_city (city : string) (df : DataFrame) : DataFrame :=
  let mask := city_mask city df in
  mkFrame (select mask (rows df))
          (option_map (select mask) (moving_avg df))
          (option_map (select mask) (moving_std df))
          (option_map (select mask) (anomaly df)).

(** [main()], without the drawing of the page: [file] is the uploaded file,
    [city] the entry picked in the select box, [api_key] the text typed in. *)
Definition main (requests_get : string -> response) (file : option (list Reading))
    (city api_key : string) : M unit :=
  match file with
  | None => ret tt
  | Some f =>
      data <- new_frame (load_data f) ;;
      df <- read_frame data ;;
      city_data <- new_frame (select_city city df) ;;
      city_data <- calculate_moving_average city_data default_window ;;
      city_data <- detect_anomalies city_data ;;
      season_stats <- seasonal_statistics data ;;
      if String.eqb api_key EmptyString
      then ret tt
      else
        let current_temp := fetch_temperature_sync requests_get city api_key in
        monitoring city_data season_stats city current_temp
  end.

Definition empty_world : world := mkWorld [] [].

(** The frame [calculate_moving_average] leaves behind. *)
Definition with_moving_columns (window : nat) (df : DataFrame) : DataFrame :=
  set_moving_std (Rolling.rolling_std window (temperatures df))
    (set_moving_avg (Rolling.rolling_mean window (temperatures df)) df).

Definition put_frame (r : ref) (df : DataFrame) (w : world) : world :=
  mkWorld (replace_at r df (heap w)) (written w).

Definition wrote (msg : message) (w : world) : world :=
  mkWorld (heap w) (written w ++ [msg]).

(** ** The analysis city by city: [analyze_in_parallel] *)

(** [data['city'].unique()]: the cities in order of first appearance. *)
Fixpoint unique_from (seen l : list string) : list string :=
  match l with
  | [] => []
  | x :: l' =>
      if existsb (String.eqb x) seen then unique_from seen l'
      else x :: unique_from (x :: seen) l'
  end.

Definition unique (l : list string) : list string := unique_from [] l.

Fixpoint map_M {A B : Type} (f : A -> M B) (l : list A) : M (list B) :=
  match l with
  | [] => ret []
  | a :: l' => b <- f a ;; bs <- map_M f l' ;; ret (b :: bs)
  end.

(** A task of the process pool works on a copy of its argument and hands the
    copy back. *)
Definition in_worker (task : ref -> M ref) (arg : ref) : M ref :=
  df <- read_frame arg ;;
  copy <- new_frame df ;;
  task copy.

(** [executor.map(task, args)], collected with [list(...)]: the results in the
    order of the arguments. *)
Definition executor_map (task : ref -> M ref) (args : list ref) : M (list ref) :=
  map_M (in_worker task) args.

Definition padded (n : nat) (col : option (list fnum)) : list fnum :=
  match col with
  | Some c => c
  | None => repeat NaN n
  end.

Definition has_column {A : Type} (col : option A) : bool :=
  match col with
  | Some _ => true
  | None => false
  end.

(** A numeric column of the concatenation: absent when no frame has it,
    otherwise the columns one after the other, padded with missing values for
    a frame that lacks it. *)
Definition concat_fnum (col : DataFrame -> option (list fnum)) (frames : list DataFrame)
  : option (list fnum) :=
  if existsb (fun df => has_column (col df)) frames
  then Some (flat_map (fun df => padded (length (rows df)) (col df)) frames)
  else None.

(** The [anomaly] column of the concatenation.  Its cells are booleans, so it
    is kept only when every frame carries it, as all frames handed over by
    [parallel_analyze] do. *)
Definition concat_anomaly (frames : list DataFrame) : option (list bool) :=
  if forallb (fun df => has_column (anomaly df)) frames
  then Some (flat_map (fun df => match anomaly df with Some c => c | None => [] end) frames)
  else None.

(** [pd.concat(frames)]: the rows of the frames one after the other; an empty
    list raises [ValueError]. *)
Definition pd_concat (frames : list DataFrame) : M DataFrame :=
  match frames with
  | [] => raise "ValueError"%string
  | _ :: _ =>
      ret (mkFrame (flat_map rows frames)
                   (concat_fnum moving_avg frames)
                   (concat_fnum moving_std frames)
                   (concat_anomaly frames))
  end.

(** [analyze_in_parallel(data)]. *)
Definition analyze_in_parallel (data : ref) : M ref :=
  df <- read_frame data ;;
  let cities := unique (map city (rows df)) in
  slices <- map_M (fun city => new_frame (select_city city df)) cities ;;
  results <- executor_map parallel_analyze slices ;;
  frames <- map_M read_frame results ;;
  out <- pd_concat frames ;;
  new_frame out.

(** The frame [parallel_analyze] leaves behind. *)
Definition analysed (df : DataFrame) : DataFrame :=
  set_anomaly
    (anomaly_mask (temperatures df)
       (Rolling.rolling_mean default_window (temperatures df))
       (Rolling.rolling_std default_window (temperatures df)))
    (with_moving_columns default_window df).

(** The concatenation of analysed frames. *)
Definition concat_analysed (slices : list DataFrame) : DataFrame :=
  mkFrame (flat_map rows slices)
    (Some (flat_map (fun s => Rolling.rolling_mean default_window (temperatures s)) slices))
    (Some (flat_map (fun s => Rolling.rolling_std default_window (temperatures s)) slices))
    (Some (flat_map (fun s => anomaly_mask (temperatures s)
                                (Rolling.rolling_mean default_window (temperatures s))
                                (Rolling.rolling_std default_window (temperatures s)))
             slices)).

(** The cell of a column at a position; nothing when the column is absent or
    shorter. *)
Definition cell {A : Type} (col : option (list A)) (i : nat) : option A :=
  match col with
  | Some c => nth_error c i
  | None => None
  end.

(** ** The asynchronous fetch: [fetch_temperature] *)

(** The response of [aiohttp]: its status is the attribute [status]. *)
Record aio_response : Type := mkAioResponse {
  status : Z;
  aio_json_main_temp : R
}.

(** [response.status_code] on that response: there is no such attribute. *)
Definition aio_status_code (response : aio_response) : res Z :=
  Raise "AttributeError"%string.

(** [fetch_temperature(city, api_key)], once awaited; the session is the
    function [session_get]. *)
Definition fetch_temperature (session_get : string -> aio_response)
    (city api_key : string) : res fetched :=
  let response := session_get (weather_url city api_key) in
  if (status response =? 200)%Z then Ok (FetchedTemp (aio_json_main_temp response))
  else
    match aio_status_code response with
    | Raise e => Raise e
    | Ok code =>
        if (code =? 401)%Z then Ok (FetchedError 401 invalid_key_message)
        else Ok FetchedNone
    end.

(** ** The specification's formulas, written over positions *)

Module Spec.

Fixpoint sum_range (f : nat -> R) (lo len : nat) : R :=
  match len with
  | O => 0
  | S len' => f lo + sum_range f (S lo) len'
  end.

(** Arithmetic mean of the values at positions [i-w+1 .. i]. *)
Definition window_mean (xs : list R) (w i : nat) : R :=
  sum_range (fun j => nth j xs 0) (i + 1 - w) w / INR w.

(** Sample standard deviation of the same values, divisor [w - 1]; undefined
    when the divisor is zero. *)
Definition window_std (xs : list R) (w i : nat) : fnum :=
  if (w - 1 =? 0)%nat then NaN
  else Some (sqrt (sum_range (fun j => (nth j xs 0 - window_mean xs w i) ^ 2) (i + 1 - w) w
                   / INR (w - 1))).

(** The readings of a (city, season) pair, drawn from the whole dataset. *)
Definition group (data : list Reading) (c s : string) : list Reading :=
  filter (fun r => String.eqb (city r) c && String.eqb (season r) s) data.

Definition group_mean (data : list Reading) (c s : string) : R :=
  Stats.sum (map temperature (group data c s)) / INR (length (group data c s)).

End Spec.

(** ** The invariant of grouping *)

(** The temperatures of the readings of a key. *)
Definition group_temps (data : list Reading) (k : Key.t) : list R :=
  map temperature (Spec.group data (fst k) (snd k)).

(** The keys of the table are in strictly ascending order. *)
Definition sorted_groups (gs : list (Key.t * list R)) : Prop :=
  StronglySorted Key.lt (map fst gs).

(** What the table holds once the readings [data] have been dealt out. *)
Definition groups_of (data : list Reading) (gs : list (Key.t * list R)) : Prop :=
  sorted_groups gs
  /\ (forall k xs, In (k, xs) gs -> xs = group_temps data k /\ xs <> [])
  /\ (forall r, In r data -> In (Key.of_reading r) (map fst gs)).

(** * Properties *)

(** ** Comparisons on cells *)

Lemma Rltb_true_iff (x y : R) : Rltb x y = true <-> x < y.
Proof. unfold Rltb. destruct (Rlt_dec x y); split; intros; try easy. Qed.

Lemma Rleb_true_iff (x y : R) : Rleb x y = true <-> x <= y.
Proof. unfold Rleb. destruct (Rle_dec x y); split; intros; try easy. Qed.

Lemma flt_true_iff (a b : fnum) :
  flt a b = true <-> exists x y, a = Some x /\ b = Some y /\ x < y.
Proof.
  destruct a as [x|], b as [y|]; simpl.
  - rewrite Rltb_true_iff. split.
    + intros H. exists x, y. auto.
    + intros (x' & y' & Hx & Hy & H). inversion Hx. inversion Hy. subst. exact H.
  - split; [discriminate | intros (? & ? & _ & H & _); discriminate].
  - split; [discriminate | intros (? & ? & H & _); discriminate].
  - split; [discriminate | intros (? & ? & H & _); discriminate].
Qed.

Lemma fle_true_iff (a b : fnum) :
  fle a b = true <-> exists x y, a = Some x /\ b = Some y /\ x <= y.
Proof.
  destruct a as [x|], b as [y|]; simpl.
  - rewrite Rleb_true_iff. split.
    + intros H. exists x, y. auto.
    + intros (x' & y' & Hx & Hy & H). inversion Hx. inversion Hy. subst. exact H.
  - split; [discriminate | intros (? & ? & _ & H & _); discriminate].
  - split; [discriminate | intros (? & ? & H & _); discriminate].
  - split; [discriminate | intros (? & ? & H & _); discriminate].
Qed.

(** ** The heap *)

Lemma nth_error_replace_at_same {A : Type} (l : list A) (i : nat) (a b : A) :
  nth_error l i = Some b -> nth_error (replace_at i a l) i = Some a.
Proof.
  revert i. induction l as [|c l IH]; intros [|i] H; simpl in *; try discriminate; auto.
Qed.

Lemma nth_error_replace_at_other {A : Type} (l : list A) (i j : nat) (a : A) :
  i <> j -> nth_error (replace_at i a l) j = nth_error l j.
Proof.
  revert i j. induction l as [|c l IH]; intros [|i] [|j] H; simpl; auto;
    try congruence.
Qed.

Lemma replace_at_twice {A : Type} (l : list A) (i : nat) (a b : A) :
  replace_at i a (replace_at i b l) = replace_at i a l.
Proof.
  revert i. induction l as [|c l IH]; intros [|i]; simpl; auto. f_equal. apply IH.
Qed.

Lemma calculate_moving_average_run (w : world) (data : ref) (window : nat) (df : DataFrame) :
  nth_error (heap w) data = Some df ->
  calculate_moving_average data window w
  = (Ok data, put_frame data (with_moving_columns window df) w).
Proof.
  intros H. unfold calculate_moving_average, bind, read_frame, update_frame, ret.
  rewrite H. simpl. rewrite H. simpl.
  rewrite (nth_error_replace_at_same _ _ _ _ H). simpl.
  rewrite (nth_error_replace_at_same _ _ _ _ H). simpl.
  rewrite replace_at_twice. reflexivity.
Qed.

Lemma detect_anomalies_run (w : world) (data : ref) (df : DataFrame) (avg sd : list fnum) :
  nth_error (heap w) data = Some df ->
  moving_avg df = Some avg ->
  moving_std df = Some sd ->
  detect_anomalies data w
  = (Ok data, put_frame data (set_anomaly (anomaly_mask (temperatures df) avg sd) df) w).
Proof.
  intros H Ha Hs. unfold detect_anomalies, bind, read_frame, update_frame, ret.
  rewrite H, Ha, Hs. simpl. rewrite H. reflexivity.
Qed.

(** ** Rolling windows *)

Section RollingFacts.

Import Rolling.

Lemma length_lastn (w : nat) (l : list R) : length (lastn w l) = Nat.min w (length l).
Proof. unfold lastn. rewrite length_skipn. lia. Qed.

Lemma lastn_push (w : nat) (l : list R) (x : R) :
  lastn w (lastn w l ++ [x]) = lastn w (l ++ [x]).
Proof.
  unfold lastn at 1 3. rewrite !length_app, length_lastn. simpl.
  destruct (Nat.le_gt_cases (length l) w) as [Hle | Hgt].
  - unfold lastn. replace (length l - w)%nat with 0%nat by lia.
    rewrite skipn_0. f_equal. lia.
  - unfold lastn.
    replace (Nat.min w (length l) + 1 - w)%nat with 1%nat by lia.
    replace (length l + 1 - w)%nat with (1 + (length l - w))%nat by lia.
    rewrite <- skipn_skipn. f_equal.
    rewrite skipn_app.
    replace (length l - w - length l)%nat with 0%nat by lia.
    reflexivity.
Qed.

Lemma length_roll (stat : list R -> fnum) (w : nat) (buf xs : list R) :
  length (roll stat w buf xs) = length xs.
Proof.
  revert buf. induction xs as [|x xs IH]; intros buf; simpl; auto.
Qed.

(** The cell at position [i] is computed from the last [w] values seen so far. *)
Lemma nth_error_roll (stat : list R -> fnum) (w : nat) (xs pre : list R) (i : nat) :
  (i < length xs)%nat ->
  nth_error (roll stat w (lastn w pre) xs) i
  = Some (let b := lastn w (pre ++ firstn (S i) xs) in
          if (w <=? length b)%nat then stat b else NaN).
Proof.
  revert pre i. induction xs as [|x xs IH]; intros pre i Hi; simpl in Hi; [lia|].
  destruct i as [|i].
  - cbn [roll nth_error firstn]. unfold push. rewrite lastn_push. reflexivity.
  - cbn [roll nth_error]. unfold push. rewrite lastn_push.
    rewrite IH by lia.
    rewrite <- app_assoc. reflexivity.
Qed.

Lemma firstn_as_positions (xs : list R) (w : nat) :
  (w <= length xs)%nat ->
  firstn w xs = map (fun j => nth j xs 0) (seq 0 w).
Proof.
  revert w. induction xs as [|x xs IH]; intros [|w] H; simpl in *; try lia; auto.
  f_equal. rewrite <- seq_shift, map_map. apply IH. lia.
Qed.

(** The values held in positions [a .. a+w-1]. *)
Lemma slice_as_positions (xs : list R) (a w : nat) :
  (a + w <= length xs)%nat ->
  skipn a (firstn (a + w) xs) = map (fun j => nth j xs 0) (seq a w).
Proof.
  revert xs. induction a as [|a IH]; intros xs H.
  - simpl. apply firstn_as_positions. lia.
  - destruct xs as [|x xs]; simpl in H; [lia|].
    cbn [Nat.add firstn skipn]. rewrite IH by lia.
    rewrite <- seq_shift, map_map. reflexivity.
Qed.

Lemma full_window (xs : list R) (w i : nat) :
  (w <= S i)%nat -> (i < length xs)%nat ->
  lastn w (firstn (S i) xs) = map (fun j => nth j xs 0) (seq (i + 1 - w) w).
Proof.
  intros Hw Hi. unfold lastn. rewrite length_firstn.
  replace (Nat.min (S i) (length xs) - w)%nat with (i + 1 - w)%nat by lia.
  replace (S i) with ((i + 1 - w) + w)%nat at 1 by lia.
  apply slice_as_positions. lia.
Qed.

Lemma sum_positions (g : R -> R) (f : nat -> R) (a w : nat) :
  Stats.sum (map g (map f (seq a w))) = Spec.sum_range (fun j => g (f j)) a w.
Proof.
  revert a. induction w as [|w IH]; intros a; simpl; auto.
  rewrite IH. reflexivity.
Qed.

Lemma sum_positions_id (f : nat -> R) (a w : nat) :
  Stats.sum (map f (seq a w)) = Spec.sum_range f a w.
Proof.
  revert a. induction w as [|w IH]; intros a; simpl; auto.
  rewrite IH. reflexivity.
Qed.

(** Before the window is full the cell is missing, whatever the statistic. *)
Lemma roll_warm_up (stat : list R -> fnum) (w : nat) (xs : list R) (i : nat) :
  (i < length xs)%nat -> (i < w - 1)%nat ->
  nth_error (roll stat w [] xs) i = Some NaN.
Proof.
  intros Hi Hw.
  change (@nil R) with (lastn w []) at 1.
  rewrite nth_error_roll by assumption. cbn [app].
  rewrite length_lastn, length_firstn.
  destruct (Nat.leb_spec w (Nat.min w (Nat.min (S i) (length xs)))); [lia | reflexivity].
Qed.

(** Once the window is full the statistic is taken on the values at
    positions [i-w+1 .. i]. *)
Lemma roll_full (stat : list R -> fnum) (w : nat) (xs : list R) (i : nat) :
  (i < length xs)%nat -> (w - 1 <= i)%nat ->
  nth_error (roll stat w [] xs) i
  = Some (stat (map (fun j => nth j xs 0) (seq (i + 1 - w) w))).
Proof.
  intros Hi Hw.
  change (@nil R) with (lastn w []) at 1.
  rewrite nth_error_roll by assumption. cbn [app].
  rewrite full_window by lia.
  rewrite length_map, length_seq, Nat.leb_refl. reflexivity.
Qed.

Lemma mean_of_positions (xs : list R) (w i : nat) :
  (1 <= w)%nat ->
  Stats.mean (map (fun j => nth j xs 0) (seq (i + 1 - w) w))
  = Some (Spec.window_mean xs w i).
Proof.
  intros Hw. unfold Stats.mean, Spec.window_mean.
  destruct w as [|w]; [lia|].
  cbn [seq map]. f_equal.
  change (nth (i + 1 - S w) xs 0 :: map (fun j => nth j xs 0) (seq (S (i + 1 - S w)) w))
    with (map (fun j => nth j xs 0) (seq (i + 1 - S w) (S w))).
  rewrite sum_positions_id, length_map, length_seq. reflexivity.
Qed.

Lemma std_of_positions (xs : list R) (w i : nat) :
  Stats.std (map (fun j => nth j xs 0) (seq (i + 1 - w) w)) = Spec.window_std xs w i.
Proof.
  unfold Stats.std, Spec.window_std, Stats.ddof, Stats.sq_dev.
  rewrite length_map, length_seq.
  destruct (Nat.ltb_spec 1 w) as [H | H].
  - destruct (Nat.eqb_spec (w - 1) 0) as [H0 | H0]; [lia|].
    rewrite sum_positions. unfold Spec.window_mean.
    rewrite sum_positions_id. reflexivity.
  - destruct (Nat.eqb_spec (w - 1) 0) as [H0 | H0]; [reflexivity | lia].
Qed.

Lemma roll_cells (stat : list R -> fnum) (w : nat) (buf xs : list R) (c : fnum) :
  In c (roll stat w buf xs) -> c = NaN \/ exists b, c = stat b.
Proof.
  revert buf. induction xs as [|x xs IH]; intros buf H; simpl in H; [contradiction|].
  destruct H as [H | H].
  - destruct (w <=? length (push w buf x))%nat; subst; eauto.
  - eapply IH. eassumption.
Qed.

Lemma rolling_std_nonneg (w : nat) (xs : list R) (i : nat) (s : R) :
  nth_error (rolling_std w xs) i = Some (Some s) -> 0 <= s.
Proof.
  intros H. apply nth_error_In in H. apply roll_cells in H.
  destruct H as [H | [b H]]; [discriminate |].
  unfold Stats.std in H. destruct (Stats.ddof <? length b)%nat; [| discriminate].
  inversion H. apply sqrt_pos.
Qed.

End RollingFacts.

(** ** The rolling baseline *)

Lemma with_moving_columns_twice (window : nat) (df : DataFrame) :
  with_moving_columns window (with_moving_columns window df) = with_moving_columns window df.
Proof. reflexivity. Qed.

(** The call works in place: what it leaves in the heap. *)
Lemma calculate_moving_average_in_place
    (w : world) (data : ref) (window : nat) (df : DataFrame) :
  nth_error (heap w) data = Some df ->
  exists w' df',
    calculate_moving_average data window w = (Ok data, w') /\
    nth_error (heap w') data = Some df' /\
    rows df' = rows df /\
    temperatures df' = temperatures df /\
    anomaly df' = anomaly df /\
    moving_avg df' = Some (Rolling.rolling_mean window (temperatures df)) /\
    moving_std df' = Some (Rolling.rolling_std window (temperatures df)) /\
    (forall r, r <> data -> nth_error (heap w') r = nth_error (heap w) r) /\
    written w' = written w /\
    calculate_moving_average data window w' = (Ok data, w').
Proof.
  intros H.
  exists (put_frame data (with_moving_columns window df) w), (with_moving_columns window df).
  assert (Hat : nth_error (heap (put_frame data (with_moving_columns window df) w)) data
                = Some (with_moving_columns window df)).
  { simpl. eapply nth_error_replace_at_same. eassumption. }
  repeat split; try reflexivity.
  - apply calculate_moving_average_run. assumption.
  - exact Hat.
  - intros r Hr. simpl. apply nth_error_replace_at_other. congruence.
  - rewrite (calculate_moving_average_run _ _ _ _ Hat).
    rewrite with_moving_columns_twice. unfold put_frame. simpl.
    rewrite replace_at_twice. reflexivity.
Qed.

(** C8, as the code has it: [calculate_moving_average] works in place.  It
    assigns the columns [moving_avg] and [moving_std] on the caller's frame and
    returns that same frame; the readings (rows, hence temperatures) and the
    [anomaly] column of the frame, every other frame and the page are left as
    they were, and a second call on the same frame changes nothing more. *)
Theorem calculate_moving_average_effect
    (w : world) (data : ref) (window : nat) (df : DataFrame) :
  nth_error (heap w) data = Some df ->
  exists w' df',
    calculate_moving_average data window w = (Ok data, w') /\
    nth_error (heap w') data = Some df' /\
    rows df' = rows df /\
    temperatures df' = temperatures df /\
    anomaly df' = anomaly df /\
    moving_avg df' = Some (Rolling.rolling_mean window (temperatures df)) /\
    moving_std df' = Some (Rolling.rolling_std window (temperatures df)) /\
    (forall r, r <> data -> nth_error (heap w') r = nth_error (heap w) r) /\
    written w' = written w /\
    calculate_moving_average data window w' = (Ok data, w').
Proof. apply calculate_moving_average_in_place. Qed.

Lemma calculate_moving_average_effect_witness :
  exists w' df',
    calculate_moving_average 0 3
      (mkWorld [load_data [mkReading "Berlin" 1 "winter" 5; mkReading "Berlin" 2 "winter" 7]] [])
    = (Ok 0%nat, w') /\
    nth_error (heap w') 0 = Some df' /\
    rows df' = [mkReading "Berlin" 1 "winter" 5; mkReading "Berlin" 2 "winter" 7].
Proof.
  destruct (calculate_moving_average_effect
              (mkWorld [load_data [mkReading "Berlin" 1 "winter" 5;
                                   mkReading "Berlin" 2 "winter" 7]] [])
              0 3 _ eq_refl)
    as (w' & df' & Hrun & Hat & Hrows & _).
  exists w', df'. repeat split; assumption.
Defined.

(** C8, as the specification words it (no side effect, the caller's frame is
    unchanged by the call), fails: after the call the frame the caller holds
    carries two columns it did not have. *)
Lemma calculate_moving_average_mutates_caller_frame :
  let w0 := mkWorld [load_data [mkReading "Berlin" 1 "winter" 5]] [] in
  nth_error (heap (snd (calculate_moving_average 0 30 w0))) 0 <> nth_error (heap w0) 0.
Proof.
  simpl. intros H. discriminate H.
Qed.

(** C2, as the specification words it, fails at window 1: the moving standard
    deviation of the only point of a one-point series is undefined. *)
Lemma window_one_std_undefined :
  let w0 := mkWorld [load_data [mkReading "Berlin" 1 "winter" 5]] [] in
  exists df,
    nth_error (heap (snd (calculate_moving_average 0 1 w0))) 0 = Some df /\
    moving_std df = Some [NaN].
Proof.
  simpl. eexists. split; reflexivity.
Qed.

(** The two columns: their length and their undefined cells. *)
Lemma calculate_moving_average_columns
    (w : world) (data : ref) (window : nat) (df : DataFrame) :
  nth_error (heap w) data = Some df ->
  exists w' df' avg sd,
    calculate_moving_average data window w = (Ok data, w') /\
    nth_error (heap w') data = Some df' /\
    rows df' = rows df /\
    moving_avg df' = Some avg /\
    moving_std df' = Some sd /\
    length avg = length (rows df) /\
    length sd = length (rows df) /\
    (forall i, (i < length (rows df))%nat -> (i < window - 1)%nat ->
       nth_error avg i = Some NaN /\ nth_error sd i = Some NaN) /\
    (window = 1%nat -> forall i, (i < length (rows df))%nat ->
       (exists m, nth_error avg i = Some (Some m)) /\ nth_error sd i = Some NaN).
Proof.
  intros H.
  destruct (calculate_moving_average_in_place w data window df H)
    as (w' & df' & Hrun & Hat & Hrows & _ & _ & Havg & Hsd & _).
  exists w', df', (Rolling.rolling_mean window (temperatures df)),
    (Rolling.rolling_std window (temperatures df)).
  assert (Hlen : length (temperatures df) = length (rows df))
    by (unfold temperatures; apply length_map).
  unfold Rolling.rolling_mean, Rolling.rolling_std.
  rewrite !length_roll.
  repeat split; auto.
  - apply roll_warm_up; lia.
  - apply roll_warm_up; lia.
  - subst window. rewrite roll_full by lia.
    rewrite mean_of_positions by lia. eexists. reflexivity.
  - subst window. rewrite roll_full by lia.
    rewrite std_of_positions. reflexivity.
Qed.

(** C2, amended: the call yields one moving mean and one moving standard
    deviation per reading, on the rows in their input order; both are
    undefined at the first [window - 1] positions; with window 1 every moving
    mean is defined and every moving standard deviation is undefined. *)
Theorem calculate_moving_average_shape
    (w : world) (data : ref) (window : nat) (df : DataFrame) :
  nth_error (heap w) data = Some df ->
  exists w' df' avg sd,
    calculate_moving_average data window w = (Ok data, w') /\
    nth_error (heap w') data = Some df' /\
    rows df' = rows df /\
    moving_avg df' = Some avg /\
    moving_std df' = Some sd /\
    length avg = length (rows df) /\
    length sd = length (rows df) /\
    (forall i, (i < length (rows df))%nat -> (i < window - 1)%nat ->
       nth_error avg i = Some NaN /\ nth_error sd i = Some NaN) /\
    (window = 1%nat -> forall i, (i < length (rows df))%nat ->
       (exists m, nth_error avg i = Some (Some m)) /\ nth_error sd i = Some NaN).
Proof. apply calculate_moving_average_columns. Qed.

Lemma calculate_moving_average_shape_witness :
  exists w' df' avg sd,
    calculate_moving_average 0 3
      (mkWorld [load_data [mkReading "Berlin" 1 "winter" 5; mkReading "Berlin" 2 "winter" 7]] [])
    = (Ok 0%nat, w') /\
    nth_error (heap w') 0 = Some df' /\
    moving_avg df' = Some avg /\
    moving_std df' = Some sd /\
    length avg = 2%nat /\
    length sd = 2%nat /\
    nth_error avg 0 = Some NaN /\ nth_error sd 0 = Some NaN.
Proof.
  destruct (calculate_moving_average_shape
              (mkWorld [load_data [mkReading "Berlin" 1 "winter" 5;
                                   mkReading "Berlin" 2 "winter" 7]] [])
              0 3 _ eq_refl)
    as (w' & df' & avg & sd & Hrun & Hat & _ & Havg & Hsd & Hla & Hls & Hwarm & _).
  exists w', df', avg, sd.
  destruct (Hwarm 0%nat) as [Ha Hs]; [simpl; lia | lia |].
  repeat split; assumption.
Defined.

(** C3: at every position [i >= window - 1] the moving mean is the arithmetic
    mean, and the moving standard deviation the sample standard deviation with
    divisor [window - 1], of the temperatures at positions [i-window+1 .. i]. *)
Theorem calculate_moving_average_window_formulas
    (w : world) (data : ref) (window : nat) (df : DataFrame) (i : nat) :
  nth_error (heap w) data = Some df ->
  (1 <= window)%nat ->
  (window - 1 <= i)%nat ->
  (i < length (rows df))%nat ->
  exists w' df' avg sd,
    calculate_moving_average data window w = (Ok data, w') /\
    nth_error (heap w') data = Some df' /\
    moving_avg df' = Some avg /\
    moving_std df' = Some sd /\
    nth_error avg i = Some (Some (Spec.window_mean (temperatures df) window i)) /\
    nth_error sd i = Some (Spec.window_std (temperatures df) window i).
Proof.
  intros H Hw Hi Hn.
  destruct (calculate_moving_average_in_place w data window df H)
    as (w' & df' & Hrun & Hat & _ & _ & _ & Havg & Hsd & _).
  exists w', df', (Rolling.rolling_mean window (temperatures df)),
    (Rolling.rolling_std window (temperatures df)).
  assert (Hlen : length (temperatures df) = length (rows df))
    by (unfold temperatures; apply length_map).
  unfold Rolling.rolling_mean, Rolling.rolling_std.
  repeat split; auto.
  - rewrite roll_full by lia. rewrite mean_of_positions by lia. reflexivity.
  - rewrite roll_full by lia. rewrite std_of_positions. reflexivity.
Qed.

Lemma calculate_moving_average_window_formulas_witness :
  exists w' df' avg sd,
    calculate_moving_average 0 2
      (mkWorld [load_data [mkReading "Berlin" 1 "winter" 5; mkReading "Berlin" 2 "winter" 7;
                           mkReading "Berlin" 3 "winter" 9]] [])
    = (Ok 0%nat, w') /\
    nth_error (heap w') 0 = Some df' /\
    moving_avg df' = Some avg /\
    moving_std df' = Some sd /\
    nth_error avg 2 = Some (Some (Spec.window_mean [5; 7; 9] 2 2)) /\
    nth_error sd 2 = Some (Spec.window_std [5; 7; 9] 2 2).
Proof.
  apply (calculate_moving_average_window_formulas
           (mkWorld [load_data [mkReading "Berlin" 1 "winter" 5; mkReading "Berlin" 2 "winter" 7;
                                mkReading "Berlin" 3 "winter" 9]] [])
           0 2 _ 2 eq_refl); simpl; lia.
Defined.

(** ** The anomaly flags *)

Lemma nth_error_map2 {A B C : Type} (f : A -> B -> C) (la : list A) (lb : list B)
    (i : nat) (a : A) (b : B) :
  nth_error la i = Some a -> nth_error lb i = Some b ->
  nth_error (Col.map2 f la lb) i = Some (f a b).
Proof.
  revert lb i. induction la as [|a' la IH]; intros [|b' lb] [|i] Ha Hb;
    simpl in *; try discriminate.
  - congruence.
  - apply IH; assumption.
Qed.

Lemma length_map2 {A B C : Type} (f : A -> B -> C) (la : list A) (lb : list B) :
  length (Col.map2 f la lb) = Nat.min (length la) (length lb).
Proof.
  revert lb. induction la as [|a la IH]; intros [|b lb]; simpl; auto.
Qed.

Lemma length_anomaly_mask (temp : list R) (avg sd : list fnum) :
  length avg = length temp -> length sd = length temp ->
  length (anomaly_mask temp avg sd) = length temp.
Proof.
  intros Ha Hs. unfold anomaly_mask, Col.or, Col.gt, Col.lt, Col.add, Col.sub,
    Col.scale, Col.of_values.
  rewrite !length_map2, !length_map. lia.
Qed.

(** One cell of the mask. *)
Lemma nth_error_anomaly_mask (temp : list R) (avg sd : list fnum)
    (i : nat) (t : R) (ma ms : fnum) :
  nth_error temp i = Some t -> nth_error avg i = Some ma -> nth_error sd i = Some ms ->
  nth_error (anomaly_mask temp avg sd) i
  = Some (fgt (Some t) (fadd ma (fmul (Some 2) ms))
          || flt (Some t) (fsub ma (fmul (Some 2) ms))).
Proof.
  intros Ht Ha Hs. unfold anomaly_mask, Col.or, Col.gt, Col.lt, Col.add, Col.sub,
    Col.scale, Col.of_values.
  assert (H2 : nth_error (map (fmul (Some 2)) sd) i = Some (fmul (Some 2) ms))
    by (rewrite nth_error_map, Hs; reflexivity).
  assert (Hv : nth_error (map Some temp) i = Some (Some t))
    by (rewrite nth_error_map, Ht; reflexivity).
  apply nth_error_map2; apply nth_error_map2; auto; apply nth_error_map2; auto.
Qed.

Lemma two_sigma_flag (t : R) (ma ms : fnum) :
  fgt (Some t) (fadd ma (fmul (Some 2) ms)) || flt (Some t) (fsub ma (fmul (Some 2) ms))
  = true
  <-> exists m s, ma = Some m /\ ms = Some s /\ (t > m + 2 * s \/ t < m - 2 * s).
Proof.
  rewrite orb_true_iff. unfold fgt. rewrite !flt_true_iff. split.
  - intros [(x & y & Hx & Hy & Hlt) | (x & y & Hx & Hy & Hlt)];
      destruct ma as [m|], ms as [s|]; simpl in *; try discriminate;
      exists m, s; inversion Hx; inversion Hy; subst;
      (split; [reflexivity | split; [reflexivity |]]).
    + left. lra.
    + right. lra.
  - intros (m & s & -> & -> & [H | H]); simpl.
    + left. exists (m + 2 * s), t. repeat split; auto.
    + right. exists t, (m - 2 * s). repeat split; auto.
Qed.

(** The flags, cell by cell. *)
Lemma detect_anomalies_cells :
  forall (w : world) (data : ref) (df : DataFrame) (avg sd : list fnum),
   nth_error (heap w) data = Some df ->
   moving_avg df = Some avg ->
   moving_std df = Some sd ->
   length avg = length (rows df) ->
   length sd = length (rows df) ->
   exists w' df' flags,
     detect_anomalies data w = (Ok data, w') /\
     nth_error (heap w') data = Some df' /\
     rows df' = rows df /\
     anomaly df' = Some flags /\
     length flags = length (rows df) /\
     forall i r, nth_error (rows df) i = Some r ->
       exists b ma ms,
         nth_error flags i = Some b /\
         nth_error avg i = Some ma /\
         nth_error sd i = Some ms /\
         (b = true <->
            exists m s, ma = Some m /\ ms = Some s /\
              (temperature r > m + 2 * s \/ temperature r < m - 2 * s)) /\
         (forall m s, ma = Some m -> ms = Some s -> 0 <= s ->
            temperature r = m + 2 * s \/ temperature r = m - 2 * s -> b = false) /\
         (ma = NaN \/ ms = NaN -> b = false).
Proof.
  intros w data df avg sd H Ha Hs Hla Hls.
  assert (Hlen : length (temperatures df) = length (rows df))
    by (unfold temperatures; apply length_map).
  exists (put_frame data (set_anomaly (anomaly_mask (temperatures df) avg sd) df) w),
    (set_anomaly (anomaly_mask (temperatures df) avg sd) df),
    (anomaly_mask (temperatures df) avg sd).
  split; [apply detect_anomalies_run; assumption |].
  split; [simpl; eapply nth_error_replace_at_same; eassumption |].
  split; [reflexivity |].
  split; [reflexivity |].
  split; [rewrite length_anomaly_mask; lia |].
  intros i r Hr.
  assert (Hi : (i < length (rows df))%nat)
    by (apply nth_error_Some; rewrite Hr; discriminate).
  destruct (nth_error avg i) as [ma|] eqn:Hma;
    [| apply nth_error_None in Hma; lia].
  destruct (nth_error sd i) as [ms|] eqn:Hms;
    [| apply nth_error_None in Hms; lia].
  assert (Ht : nth_error (temperatures df) i = Some (temperature r))
    by (unfold temperatures; rewrite nth_error_map, Hr; reflexivity).
  pose proof (nth_error_anomaly_mask _ _ _ _ _ _ _ Ht Hma Hms) as Hb.
  pose proof (two_sigma_flag (temperature r) ma ms) as Hiff.
  remember (fgt (Some (temperature r)) (fadd ma (fmul (Some 2) ms))
            || flt (Some (temperature r)) (fsub ma (fmul (Some 2) ms))) as b eqn:Eqb.
  clear Eqb.
  exists b, ma, ms.
  repeat split; auto; try (apply Hiff).
  - intros m s -> -> Hpos Hbound.
    destruct b eqn:Eb; [| reflexivity].
    destruct (proj1 Hiff eq_refl) as (m' & s' & Hm & Hs' & Hout).
    inversion Hm. inversion Hs'. subst. destruct Hbound, Hout; lra.
  - intros Hnan.
    destruct b eqn:Eb; [| reflexivity].
    destruct (proj1 Hiff eq_refl) as (m' & s' & Hm & Hs' & _).
    unfold NaN in Hnan. destruct Hnan; congruence.
Qed.

(** C1: on a frame whose baseline columns are aligned with its rows,
    [detect_anomalies] flags the reading at a position exactly when its moving
    mean [m] and moving standard deviation [s] are both defined and the
    temperature is strictly above [m + 2 s] or strictly below [m - 2 s]; a
    temperature equal to either bound is not flagged (a standard deviation is
    not negative, and the rolling one never is), and neither is a reading with
    an undefined baseline cell.  After [calculate_moving_average], the first
    [window - 1] positions are therefore never flagged. *)
Theorem detect_anomalies_two_sigma :
  (forall (w : world) (data : ref) (df : DataFrame) (avg sd : list fnum),
     nth_error (heap w) data = Some df ->
     moving_avg df = Some avg ->
     moving_std df = Some sd ->
     length avg = length (rows df) ->
     length sd = length (rows df) ->
     exists w' df' flags,
       detect_anomalies data w = (Ok data, w') /\
       nth_error (heap w') data = Some df' /\
       rows df' = rows df /\
       anomaly df' = Some flags /\
       length flags = length (rows df) /\
       forall i r, nth_error (rows df) i = Some r ->
         exists b ma ms,
           nth_error flags i = Some b /\
           nth_error avg i = Some ma /\
           nth_error sd i = Some ms /\
           (b = true <->
              exists m s, ma = Some m /\ ms = Some s /\
                (temperature r > m + 2 * s \/ temperature r < m - 2 * s)) /\
           (forall m s, ma = Some m -> ms = Some s -> 0 <= s ->
              temperature r = m + 2 * s \/ temperature r = m - 2 * s -> b = false) /\
           (ma = NaN \/ ms = NaN -> b = false))
  /\
  (forall (w : world) (data : ref) (window : nat) (df : DataFrame) (i : nat),
     nth_error (heap w) data = Some df ->
     (i < length (rows df))%nat ->
     (i < window - 1)%nat ->
     exists w1 w2 df2 flags,
       calculate_moving_average data window w = (Ok data, w1) /\
       detect_anomalies data w1 = (Ok data, w2) /\
       nth_error (heap w2) data = Some df2 /\
       anomaly df2 = Some flags /\
       nth_error flags i = Some false)
  /\
  (forall (window : nat) (xs : list R) (i : nat) (s : R),
     nth_error (Rolling.rolling_std window xs) i = Some (Some s) -> 0 <= s).
Proof.
  pose proof detect_anomalies_cells as Hfirst.
  split; [exact Hfirst |].
  split; [| intros window xs i s; apply rolling_std_nonneg].
  intros w data window df i H Hi Hw.
  destruct (calculate_moving_average_columns w data window df H)
    as (w1 & df1 & avg & sd & Hrun & Hat & Hrows & Havg & Hsd & Hla & Hls & Hwarm & _).
  rewrite <- Hrows in Hla, Hls.
  destruct (Hfirst w1 data df1 avg sd Hat Havg Hsd Hla Hls)
    as (w2 & df2 & flags & Hrun2 & Hat2 & _ & Hflags & _ & Hcells).
  exists w1, w2, df2, flags.
  repeat split; auto.
  destruct (nth_error (rows df1) i) as [r|] eqn:Hr;
    [| apply nth_error_None in Hr; rewrite Hrows in Hr; lia].
  destruct (Hcells i r Hr) as (b & ma & ms & Hb & Hma & Hms & _ & _ & Hnan).
  destruct (Hwarm i Hi Hw) as [Ha0 _].
  rewrite Hma in Ha0. inversion Ha0. subst ma.
  rewrite Hb. f_equal. apply Hnan. left. reflexivity.
Qed.

Lemma detect_anomalies_two_sigma_witness :
  exists w' df' flags,
    detect_anomalies 0
      (mkWorld [mkFrame [mkReading "Berlin" 6 "winter" 30] (Some [Some 10]) (Some [Some 0]) None] [])
    = (Ok 0%nat, w') /\
    nth_error (heap w') 0 = Some df' /\
    anomaly df' = Some flags /\
    length flags = 1%nat.
Proof.
  destruct detect_anomalies_two_sigma as [Hcells _].
  destruct (Hcells
              (mkWorld [mkFrame [mkReading "Berlin" 6 "winter" 30]
                          (Some [Some 10]) (Some [Some 0]) None] [])
              0%nat _ [Some 10] [Some 0] eq_refl eq_refl eq_refl eq_refl eq_refl)
    as (w' & df' & flags & Hrun & Hat & _ & Hflags & Hlen & _).
  exists w', df', flags. repeat split; assumption.
Defined.

(** A reading of 30 against a moving mean of 10 with no spread is flagged; a
    reading on the bound is not. *)
Example flag_above_the_band :
  anomaly_mask [30; 16] [Some 10; Some 10] [Some 0; Some 3] = [true; false].
Proof.
  unfold anomaly_mask, Col.or, Col.gt, Col.lt, Col.add, Col.sub, Col.scale, Col.of_values.
  cbn -[Rltb Rplus Rminus Rmult].
  replace (Rltb (10 + 2 * 0) 30) with true by (symmetry; apply Rltb_true_iff; lra).
  replace (Rltb (10 + 2 * 3) 16) with false
    by (symmetry; unfold Rltb; destruct (Rlt_dec (10 + 2 * 3) 16); [lra | reflexivity]).
  replace (Rltb 16 (10 - 2 * 3)) with false
    by (symmetry; unfold Rltb; destruct (Rlt_dec 16 (10 - 2 * 3)); [lra | reflexivity]).
  reflexivity.
Qed.

(** ** The order of the group keys *)

Section KeyOrder.

Lemma string_compare_eq (a b : string) : String_as_OT.compare a b = Eq -> a = b.
Proof.
  intros H. pose proof (String_as_OT.compare_spec a b) as Hs.
  rewrite H in Hs. inversion Hs. assumption.
Qed.

Lemma string_lt_irrefl (a : string) : String_as_OT.compare a a <> Lt.
Proof.
  intros H. exact (StrictOrder_Irreflexive (R := String_as_OT.lt) a H).
Qed.

Lemma string_compare_refl (a : string) : String_as_OT.compare a a = Eq.
Proof.
  pose proof (String_as_OT.compare_spec a a) as Hs.
  inversion Hs as [_ He | Hlt He | Hlt He]; auto;
    exfalso; exact (string_lt_irrefl a Hlt).
Qed.

Lemma string_lt_trans (a b c : string) :
  String_as_OT.compare a b = Lt -> String_as_OT.compare b c = Lt ->
  String_as_OT.compare a c = Lt.
Proof.
  intros H1 H2. exact (StrictOrder_Transitive (R := String_as_OT.lt) a b c H1 H2).
Qed.

Lemma string_gt_lt (a b : string) :
  String_as_OT.compare a b = Gt -> String_as_OT.compare b a = Lt.
Proof.
  intros H. pose proof (String_as_OT.compare_spec a b) as Hs.
  rewrite H in Hs. inversion Hs. assumption.
Qed.

Lemma key_compare_eq (a b : Key.t) : Key.compare a b = Eq -> a = b.
Proof.
  destruct a as [a1 a2], b as [b1 b2]. unfold Key.compare. simpl.
  destruct (String_as_OT.compare a1 b1) eqn:H1; try discriminate.
  intros H2. apply string_compare_eq in H1, H2. congruence.
Qed.

Lemma key_compare_refl (a : Key.t) : Key.compare a a = Eq.
Proof.
  destruct a as [a1 a2]. unfold Key.compare. simpl.
  rewrite !string_compare_refl. reflexivity.
Qed.

Lemma key_lt_irrefl (a : Key.t) : Key.compare a a <> Lt.
Proof. rewrite key_compare_refl. discriminate. Qed.

Lemma key_lt_trans (a b c : Key.t) :
  Key.compare a b = Lt -> Key.compare b c = Lt -> Key.compare a c = Lt.
Proof.
  destruct a as [a1 a2], b as [b1 b2], c as [c1 c2]. unfold Key.compare. simpl.
  destruct (String_as_OT.compare a1 b1) eqn:H1; try discriminate;
    destruct (String_as_OT.compare b1 c1) eqn:H2; try discriminate; intros H3 H4.
  - apply string_compare_eq in H1, H2. subst.
    rewrite string_compare_refl. eapply string_lt_trans; eassumption.
  - apply string_compare_eq in H1. subst. rewrite H2. reflexivity.
  - apply string_compare_eq in H2. subst. rewrite H1. reflexivity.
  - rewrite (string_lt_trans _ _ _ H1 H2). reflexivity.
Qed.

Lemma key_gt_lt (a b : Key.t) : Key.compare a b = Gt -> Key.compare b a = Lt.
Proof.
  destruct a as [a1 a2], b as [b1 b2]. unfold Key.compare. simpl.
  destruct (String_as_OT.compare a1 b1) eqn:H1; try discriminate; intros H2.
  - apply string_compare_eq in H1. subst. rewrite string_compare_refl.
    apply string_gt_lt. assumption.
  - rewrite (string_gt_lt _ _ H1). reflexivity.
Qed.

End KeyOrder.

(** ** Grouping *)

Section Grouping.

Lemma in_group_iff (data : list Reading) (c s : string) (r : Reading) :
  In r (Spec.group data c s) <-> In r data /\ Key.of_reading r = (c, s).
Proof.
  unfold Spec.group, Key.of_reading. rewrite filter_In, andb_true_iff, !String.eqb_eq.
  split; intros [H1 H2]; split; auto.
  - destruct H2. congruence.
  - inversion H2. auto.
Qed.

Lemma group_app (pre : list Reading) (r : Reading) (c s : string) :
  Spec.group (pre ++ [r]) c s
  = Spec.group pre c s
    ++ (if String.eqb (city r) c && String.eqb (season r) s then [r] else []).
Proof. unfold Spec.group. rewrite filter_app. reflexivity. Qed.

Lemma group_temps_same (pre : list Reading) (r : Reading) :
  group_temps (pre ++ [r]) (Key.of_reading r)
  = group_temps pre (Key.of_reading r) ++ [temperature r].
Proof.
  unfold group_temps, Key.of_reading. cbn [fst snd].
  rewrite group_app, !String.eqb_refl. cbn [andb]. rewrite map_app. reflexivity.
Qed.

Lemma group_temps_other (pre : list Reading) (r : Reading) (k : Key.t) :
  k <> Key.of_reading r -> group_temps (pre ++ [r]) k = group_temps pre k.
Proof.
  intros Hk. unfold group_temps. rewrite group_app.
  destruct (String.eqb (city r) (fst k) && String.eqb (season r) (snd k)) eqn:E.
  - exfalso. apply Hk. apply andb_true_iff in E. destruct E as [E1 E2].
    apply String.eqb_eq in E1, E2. destruct k. unfold Key.of_reading. simpl in *. congruence.
  - rewrite app_nil_r. reflexivity.
Qed.

Lemma add_to_groups_keys (k k' : Key.t) (x : R) (gs : list (Key.t * list R)) :
  In k' (map fst (add_to_groups k x gs)) <-> k' = k \/ In k' (map fst gs).
Proof.
  induction gs as [|[k0 xs0] gs IH]; simpl.
  - intuition congruence.
  - destruct (Key.compare k k0) eqn:E; simpl.
    + apply key_compare_eq in E. subst. intuition congruence.
    + intuition congruence.
    + rewrite IH. intuition congruence.
Qed.

Lemma add_to_groups_sorted (k : Key.t) (x : R) (gs : list (Key.t * list R)) :
  sorted_groups gs -> sorted_groups (add_to_groups k x gs).
Proof.
  unfold sorted_groups. induction gs as [|[k0 xs0] gs IH]; simpl; intros Hs.
  - repeat constructor.
  - inversion Hs as [|? ? Hs' Hall]; subst.
    destruct (Key.compare k k0) eqn:E; simpl.
    + constructor; assumption.
    + constructor; [assumption |]. constructor; [exact E |].
      rewrite Forall_forall in *. intros k' Hk'.
      eapply key_lt_trans; [exact E | apply Hall; assumption].
    + constructor; [apply IH; assumption |].
      rewrite Forall_forall in *. intros k' Hk'.
      apply add_to_groups_keys in Hk'. destruct Hk' as [-> | Hk'].
      * apply key_gt_lt. assumption.
      * apply Hall. assumption.
Qed.

Lemma sorted_groups_NoDup (gs : list (Key.t * list R)) :
  sorted_groups gs -> NoDup (map fst gs).
Proof.
  unfold sorted_groups. induction (map fst gs) as [|k ks IH]; intros Hs.
  - constructor.
  - inversion Hs as [|? ? Hs' Hall]; subst. constructor; [| apply IH; assumption].
    intros Hin. rewrite Forall_forall in Hall. exact (key_lt_irrefl k (Hall k Hin)).
Qed.

(** Where an entry of the grown table comes from. *)
Lemma add_to_groups_entries (k k' : Key.t) (x : R) (xs : list R)
    (gs : list (Key.t * list R)) :
  sorted_groups gs ->
  In (k', xs) (add_to_groups k x gs) ->
  (k' <> k /\ In (k', xs) gs)
  \/ (k' = k /\ ((exists xs0, In (k, xs0) gs /\ xs = xs0 ++ [x])
                \/ (~ In k (map fst gs) /\ xs = [x]))).
Proof.
  unfold sorted_groups. induction gs as [|[k0 xs0] gs IH]; simpl; intros Hs Hin.
  - destruct Hin as [Hin | []]. injection Hin as <- <-. right. split; auto.
  - inversion Hs as [|? ? Hs' Hall]; subst. rewrite Forall_forall in Hall.
    destruct (Key.compare k k0) eqn:E; simpl in Hin.
    + apply key_compare_eq in E. subst k0.
      destruct Hin as [Hin | Hin].
      * injection Hin as <- <-. right. split; auto. left. exists xs0. auto.
      * left. split; auto. intros Heq. subst k'.
        apply (key_lt_irrefl k). apply Hall.
        change k with (fst (k, xs)). apply in_map. assumption.
    + destruct Hin as [Hin | Hin].
      * injection Hin as <- <-. right. split; auto. right. split; auto.
        intros [Heq | Hk]; [subst k0; exact (key_lt_irrefl _ E) |].
        apply (key_lt_irrefl k). eapply key_lt_trans; [exact E | apply Hall; assumption].
      * left. split; auto. intros Heq. subst k'.
        destruct Hin as [Hin | Hin].
        -- injection Hin as -> _. exact (key_lt_irrefl _ E).
        -- apply (key_lt_irrefl k). eapply key_lt_trans; [exact E |].
           apply Hall. change k with (fst (k, xs)). apply in_map. assumption.
    + assert (Hne : k0 <> k)
        by (intros Heq; subst k0; rewrite key_compare_refl in E; discriminate).
      destruct Hin as [Hin | Hin].
      * injection Hin as <- <-. left. auto.
      * destruct (IH Hs' Hin) as [[Hk Hold] | [Heq [(xs1 & Hold & Hxs) | [Hnot Hxs]]]];
          try subst k'; try subst xs.
        -- left. auto.
        -- right. split; auto. left. exists xs1. auto.
        -- right. split; auto. right. split; auto.
           intros [Hk | Hk]; [congruence | contradiction].
Qed.

Lemma groups_of_step (pre : list Reading) (r : Reading) (gs : list (Key.t * list R)) :
  groups_of pre gs ->
  groups_of (pre ++ [r]) (add_to_groups (Key.of_reading r) (temperature r) gs).
Proof.
  intros (Hs & Hent & Hkeys). split; [| split].
  - apply add_to_groups_sorted. assumption.
  - intros k xs Hin.
    destruct (add_to_groups_entries _ _ _ _ _ Hs Hin)
      as [[Hk Hold] | [-> [(xs0 & Hold & ->) | [Hnot ->]]]].
    + rewrite group_temps_other by assumption. apply Hent. assumption.
    + rewrite group_temps_same. destruct (Hent _ _ Hold) as [-> _].
      split; [reflexivity |]. intros H. apply app_eq_nil in H. destruct H. discriminate.
    + rewrite group_temps_same.
      assert (Hnil : group_temps pre (Key.of_reading r) = []).
      { unfold group_temps.
        destruct (Spec.group pre (fst (Key.of_reading r)) (snd (Key.of_reading r)))
          as [|r' l] eqn:E; [reflexivity |].
        exfalso. apply Hnot.
        assert (Hr' : In r' (Spec.group pre (fst (Key.of_reading r)) (snd (Key.of_reading r))))
          by (rewrite E; left; reflexivity).
        apply in_group_iff in Hr'. destruct Hr' as [Hr' Hk].
        simpl in Hk. change (Key.of_reading r) with (city r, season r).
        rewrite <- Hk. apply Hkeys. assumption. }
      rewrite Hnil. split; [reflexivity | discriminate].
  - intros r' Hr'. apply add_to_groups_keys.
    apply in_app_or in Hr'. destruct Hr' as [Hr' | [-> | []]]; auto.
Qed.

Lemma groups_of_fold (data pre : list Reading) (gs : list (Key.t * list R)) :
  groups_of pre gs ->
  groups_of (pre ++ data)
    (fold_left (fun gs r => add_to_groups (Key.of_reading r) (temperature r) gs) data gs).
Proof.
  revert pre gs. induction data as [|r data IH]; intros pre gs H; simpl.
  - rewrite app_nil_r. assumption.
  - replace (pre ++ r :: data) with ((pre ++ [r]) ++ data)
      by (rewrite <- app_assoc; reflexivity).
    apply IH. apply groups_of_step. assumption.
Qed.

Lemma groups_of_groupby (data : list Reading) : groups_of data (groupby data).
Proof.
  unfold groupby. apply (groups_of_fold data [] []).
  split; [constructor | split]; simpl; intros; contradiction.
Qed.

Lemma stat_key_aggregate (data : list Reading) :
  map stat_key (aggregate data) = map fst (groupby data).
Proof.
  unfold aggregate. rewrite map_map. apply map_ext. intros [[c s] xs]. reflexivity.
Qed.

Lemma aggregate_NoDup (data : list Reading) : NoDup (map stat_key (aggregate data)).
Proof.
  rewrite stat_key_aggregate. apply sorted_groups_NoDup. apply groups_of_groupby.
Qed.

(** The rows of the table: one for each pair that has readings, holding the
    statistics of the temperatures of those readings. *)
Lemma aggregate_In (data : list Reading) (st : SeasonalStat) :
  In st (aggregate data)
  <-> exists c s,
        Spec.group data c s <> []
        /\ st = mkStat c s (Stats.mean (map temperature (Spec.group data c s)))
                          (Stats.std (map temperature (Spec.group data c s))).
Proof.
  destruct (groups_of_groupby data) as (Hs & Hent & Hkeys).
  unfold aggregate. rewrite in_map_iff. split.
  - intros ([[c s] xs] & <- & Hin). exists c, s.
    destruct (Hent _ _ Hin) as [Hxs Hne]. unfold group_temps in Hxs. simpl in Hxs.
    split.
    + intros Hnil. apply Hne. rewrite Hxs, Hnil. reflexivity.
    + unfold agg. simpl. rewrite Hxs. reflexivity.
  - intros (c & s & Hne & ->).
    destruct (Spec.group data c s) as [|r l] eqn:E; [congruence |].
    assert (Hr : In r (Spec.group data c s)) by (rewrite E; left; reflexivity).
    apply in_group_iff in Hr. destruct Hr as [Hr Hk].
    apply Hkeys in Hr. rewrite Hk in Hr. apply in_map_iff in Hr.
    destruct Hr as ([k xs] & Hfst & Hin). simpl in Hfst. subst k.
    exists ((c, s), xs). split; [| assumption].
    destruct (Hent _ _ Hin) as [Hxs _]. unfold group_temps in Hxs. simpl in Hxs.
    unfold agg. simpl. rewrite Hxs, E. reflexivity.
Qed.

End Grouping.

(** ** Seasonal statistics *)

Lemma seasonal_statistics_run (w : world) (data : ref) (df : DataFrame) :
  nth_error (heap w) data = Some df ->
  seasonal_statistics data w = (Ok (aggregate (rows df)), w).
Proof.
  intros H. unfold seasonal_statistics, bind, read_frame, ret. rewrite H. reflexivity.
Qed.

Lemma mean_nonempty (l : list Reading) :
  l <> [] ->
  Stats.mean (map temperature l)
  = Some (Stats.sum (map temperature l) / INR (length l)).
Proof.
  destruct l as [|r l]; [congruence |]. intros _.
  unfold Stats.mean. cbn [map]. rewrite <- (length_map temperature (r :: l)). reflexivity.
Qed.

(** C5: the table of [seasonal_statistics] has exactly one row for each
    (city, season) pair that occurs in the dataset, and the mean of a row is the
    arithmetic mean of the temperatures of all the readings of that pair in the
    whole dataset. *)
Theorem seasonal_statistics_groups (w : world) (data : ref) (df : DataFrame) :
  nth_error (heap w) data = Some df ->
  exists stats,
    seasonal_statistics data w = (Ok stats, w) /\
    NoDup (map stat_key stats) /\
    (forall c s, In (c, s) (map stat_key stats)
                 <-> exists r, In r (rows df) /\ city r = c /\ season r = s) /\
    (forall st, In st stats ->
       Spec.group (rows df) (stat_city st) (stat_season st) <> [] /\
       stat_mean st
       = Some (Spec.group_mean (rows df) (stat_city st) (stat_season st))).
Proof.
  intros H. exists (aggregate (rows df)).
  split; [apply seasonal_statistics_run; assumption |].
  split; [apply aggregate_NoDup |].
  split.
  - intros c s. rewrite in_map_iff. split.
    + intros (st & Hk & Hin). apply aggregate_In in Hin.
      destruct Hin as (c' & s' & Hne & ->). unfold stat_key in Hk. simpl in Hk.
      injection Hk as -> ->.
      destruct (Spec.group (rows df) c s) as [|r l] eqn:E; [congruence |].
      assert (Hr : In r (Spec.group (rows df) c s)) by (rewrite E; left; reflexivity).
      apply in_group_iff in Hr. destruct Hr as [Hr Hk].
      injection Hk as Hc Hs. exists r. auto.
    + intros (r & Hr & Hc & Hs).
      exists (mkStat c s (Stats.mean (map temperature (Spec.group (rows df) c s)))
                     (Stats.std (map temperature (Spec.group (rows df) c s)))).
      split; [reflexivity |]. apply aggregate_In. exists c, s. split; [| reflexivity].
      assert (Hin : In r (Spec.group (rows df) c s)).
      { apply in_group_iff. split; [assumption |]. unfold Key.of_reading. congruence. }
      intros Hnil. rewrite Hnil in Hin. contradiction.
  - intros st Hin. apply aggregate_In in Hin.
    destruct Hin as (c & s & Hne & ->). simpl. split; [assumption |].
    rewrite mean_nonempty by assumption. reflexivity.
Qed.

Lemma seasonal_statistics_groups_witness :
  exists stats,
    seasonal_statistics 0
      (mkWorld [load_data [mkReading "Berlin" 1 "winter" 5; mkReading "Cairo" 1 "winter" 20;
                           mkReading "Berlin" 2 "winter" 7]] [])
    = (Ok stats,
       mkWorld [load_data [mkReading "Berlin" 1 "winter" 5; mkReading "Cairo" 1 "winter" 20;
                           mkReading "Berlin" 2 "winter" 7]] []) /\
    NoDup (map stat_key stats).
Proof.
  destruct (seasonal_statistics_groups
              (mkWorld [load_data [mkReading "Berlin" 1 "winter" 5;
                                   mkReading "Cairo" 1 "winter" 20;
                                   mkReading "Berlin" 2 "winter" 7]] [])
              0%nat _ eq_refl)
    as (stats & Hrun & Hnodup & _).
  exists stats. split; assumption.
Defined.

(** ** The live check *)

Lemma select_stats_none (l : list SeasonalStat) (c s : string) :
  ~ In (c, s) (map stat_key l) -> select_stats l c s = [].
Proof.
  unfold select_stats. induction l as [|a l IH]; simpl; intros Hnot; [reflexivity |].
  destruct (String.eqb (stat_city a) c && String.eqb (stat_season a) s) eqn:E.
  - exfalso. apply Hnot. left. apply andb_true_iff in E. destruct E as [E1 E2].
    apply String.eqb_eq in E1, E2. unfold stat_key. congruence.
  - apply IH. intros Hin. apply Hnot. right. assumption.
Qed.

Lemma select_stats_unique (l : list SeasonalStat) (st : SeasonalStat) :
  NoDup (map stat_key l) -> In st l ->
  select_stats l (stat_city st) (stat_season st) = [st].
Proof.
  unfold select_stats. induction l as [|a l IH]; simpl; intros Hnd Hin; [contradiction |].
  inversion Hnd as [|? ? Hnot Hnd']; subst.
  destruct Hin as [-> | Hin].
  - rewrite !String.eqb_refl. simpl. f_equal.
    apply (select_stats_none l (stat_city st) (stat_season st)). exact Hnot.
  - destruct (String.eqb (stat_city a) (stat_city st)
              && String.eqb (stat_season a) (stat_season st)) eqn:E.
    + exfalso. apply Hnot. apply andb_true_iff in E. destruct E as [E1 E2].
      apply String.eqb_eq in E1, E2.
      replace (stat_key a) with (stat_key st) by (unfold stat_key; congruence).
      apply in_map. assumption.
    + apply IH; assumption.
Qed.

Lemma assess_run (season_stats : list SeasonalStat) (city season : string)
    (st : SeasonalStat) (rest : list SeasonalStat) (x : R) (w : world) :
  select_stats season_stats city season = st :: rest ->
  assess season_stats city season (FetchedTemp x) w
  = (Ok tt,
     wrote (if fle (lower_bound (stat_mean st) (stat_std st)) (Some x)
               && fle (Some x) (upper_bound (stat_mean st) (stat_std st))
            then WithinRange else OutsideRange) w).
Proof.
  intros H. unfold assess. rewrite H. unfold bind, first_of, in_range, ret.
  cbn -[fle lower_bound upper_bound].
  destruct (fle (lower_bound (stat_mean st) (stat_std st)) (Some x)
            && fle (Some x) (upper_bound (stat_mean st) (stat_std st))); reflexivity.
Qed.

Lemma wrote_within_not_outside (w : world) : wrote WithinRange w <> wrote OutsideRange w.
Proof.
  unfold wrote. intros H. injection H as H. apply app_inv_head in H. discriminate.
Qed.

(** C9: when a (city, season) pair has exactly one reading, its row of the
    table is there (no error is raised) with an undefined standard deviation,
    not 0; and the live check against that row reports every reading as outside
    the normal range. *)
Theorem single_reading_group_always_outside
    (w : world) (data : ref) (df : DataFrame) (c s : string) :
  nth_error (heap w) data = Some df ->
  length (Spec.group (rows df) c s) = 1%nat ->
  exists stats st,
    seasonal_statistics data w = (Ok stats, w) /\
    select_stats stats c s = [st] /\
    stat_city st = c /\ stat_season st = s /\
    stat_std st = NaN /\
    stat_std st <> Some 0 /\
    forall (x : R) (w0 : world),
      assess stats c s (FetchedTemp x) w0 = (Ok tt, wrote OutsideRange w0).
Proof.
  intros H Hone.
  set (g := Spec.group (rows df) c s) in *.
  set (st := mkStat c s (Stats.mean (map temperature g)) (Stats.std (map temperature g))).
  assert (Hin : In st (aggregate (rows df))).
  { apply aggregate_In. exists c, s. split; [| reflexivity].
    fold g. intros Hnil. rewrite Hnil in Hone. discriminate. }
  assert (Hsel : select_stats (aggregate (rows df)) c s = [st])
    by (apply (select_stats_unique _ st (aggregate_NoDup _) Hin)).
  assert (Hstd : stat_std st = NaN).
  { unfold st, Stats.std. simpl. rewrite length_map, Hone. reflexivity. }
  exists (aggregate (rows df)), st.
  split; [apply seasonal_statistics_run; assumption |].
  split; [exact Hsel |].
  split; [reflexivity |]. split; [reflexivity |].
  split; [exact Hstd |].
  split; [rewrite Hstd; discriminate |].
  intros x w0. rewrite (assess_run _ _ _ _ _ _ _ Hsel). rewrite Hstd.
  destruct (stat_mean st); reflexivity.
Qed.

Lemma single_reading_group_always_outside_witness :
  exists stats st,
    seasonal_statistics 0
      (mkWorld [load_data [mkReading "Berlin" 1 "winter" 5; mkReading "Cairo" 1 "winter" 20;
                           mkReading "Berlin" 2 "winter" 7]] [])
    = (Ok stats,
       mkWorld [load_data [mkReading "Berlin" 1 "winter" 5; mkReading "Cairo" 1 "winter" 20;
                           mkReading "Berlin" 2 "winter" 7]] []) /\
    select_stats stats "Cairo" "winter" = [st] /\
    stat_std st = NaN /\
    assess stats "Cairo" "winter" (FetchedTemp 20) empty_world
    = (Ok tt, wrote OutsideRange empty_world).
Proof.
  destruct (single_reading_group_always_outside
              (mkWorld [load_data [mkReading "Berlin" 1 "winter" 5;
                                   mkReading "Cairo" 1 "winter" 20;
                                   mkReading "Berlin" 2 "winter" 7]] [])
              0%nat _ "Cairo"%string "winter"%string eq_refl eq_refl)
    as (stats & st & Hrun & Hsel & _ & _ & Hstd & _ & Hout).
  exists stats, st. repeat split; auto.
Defined.

Lemma in_range_true_iff (mean_temp std_temp : fnum) (x : R) :
  fle (lower_bound mean_temp std_temp) (Some x)
  && fle (Some x) (upper_bound mean_temp std_temp) = true
  <-> exists m s, mean_temp = Some m /\ std_temp = Some s
                  /\ m - 2 * s <= x /\ x <= m + 2 * s.
Proof.
  rewrite andb_true_iff, !fle_true_iff. unfold lower_bound, upper_bound. split.
  - intros [(lo & x1 & Hlo & Hx1 & H1) (x2 & hi & Hx2 & Hhi & H2)].
    destruct mean_temp as [m|], std_temp as [s|]; simpl in *; try discriminate.
    exists m, s. injection Hlo as <-. injection Hhi as <-.
    injection Hx1 as <-. injection Hx2 as <-. auto.
  - intros (m & s & -> & -> & H1 & H2). simpl. split.
    + exists (m - 2 * s), x. auto.
    + exists x, (m + 2 * s). auto.
Qed.

(** C4: against the row [st] of the table the live check takes
    [lower_bound = mean - 2 std] and [upper_bound = mean + 2 std]; it writes
    "within the normal range" exactly when [lower_bound <= reading] and
    [reading <= upper_bound], both ends included, and "outside" otherwise; so a
    reading equal to the mean is within the range whenever [std >= 0]. *)
Theorem assess_within_iff
    (season_stats : list SeasonalStat) (city season : string)
    (st : SeasonalStat) (rest : list SeasonalStat) (x : R) (w : world) :
  select_stats season_stats city season = st :: rest ->
  (forall m s, stat_mean st = Some m -> stat_std st = Some s ->
     lower_bound (stat_mean st) (stat_std st) = Some (m - 2 * s) /\
     upper_bound (stat_mean st) (stat_std st) = Some (m + 2 * s)) /\
  (assess season_stats city season (FetchedTemp x) w = (Ok tt, wrote WithinRange w)
   \/ assess season_stats city season (FetchedTemp x) w = (Ok tt, wrote OutsideRange w)) /\
  (assess season_stats city season (FetchedTemp x) w = (Ok tt, wrote WithinRange w)
   <-> exists lo hi,
         lower_bound (stat_mean st) (stat_std st) = Some lo /\
         upper_bound (stat_mean st) (stat_std st) = Some hi /\
         lo <= x /\ x <= hi) /\
  (forall m s, stat_mean st = Some m -> stat_std st = Some s -> 0 <= s ->
     assess season_stats city season (FetchedTemp m) w = (Ok tt, wrote WithinRange w)).
Proof.
  intros H. split; [| split; [| split]].
  - intros m s -> ->. split; reflexivity.
  - rewrite (assess_run _ _ _ _ _ _ _ H).
    destruct (fle _ _ && fle _ _); auto.
  - rewrite (assess_run _ _ _ _ _ _ _ H).
    destruct (fle (lower_bound (stat_mean st) (stat_std st)) (Some x)
              && fle (Some x) (upper_bound (stat_mean st) (stat_std st))) eqn:E.
    + split; [intros _ | reflexivity].
      apply in_range_true_iff in E. destruct E as (m & s & -> & -> & H1 & H2).
      exists (m - 2 * s), (m + 2 * s). repeat split; auto.
    + split.
      * intros Heq. exfalso. apply (wrote_within_not_outside w). congruence.
      * intros (lo & hi & Hlo & Hhi & H1 & H2). exfalso.
        assert (Ht : fle (lower_bound (stat_mean st) (stat_std st)) (Some x)
                     && fle (Some x) (upper_bound (stat_mean st) (stat_std st)) = true).
        { rewrite Hlo, Hhi. simpl. apply andb_true_iff.
          split; [apply Rleb_true_iff | apply Rleb_true_iff]; assumption. }
        congruence.
  - intros m s Hm Hs Hpos. rewrite (assess_run _ _ _ _ _ _ _ H).
    replace (fle (lower_bound (stat_mean st) (stat_std st)) (Some m)
             && fle (Some m) (upper_bound (stat_mean st) (stat_std st))) with true;
      [reflexivity |].
    symmetry. apply in_range_true_iff. exists m, s. repeat split; auto; lra.
Qed.

Lemma assess_within_iff_witness :
  assess [mkStat "Berlin" "winter" (Some 15) (Some 3)] "Berlin" "winter"
    (FetchedTemp 15) empty_world
  = (Ok tt, wrote WithinRange empty_world).
Proof.
  destruct (assess_within_iff [mkStat "Berlin" "winter" (Some 15) (Some 3)]
              "Berlin" "winter" (mkStat "Berlin" "winter" (Some 15) (Some 3)) []
              15 empty_world eq_refl)
    as (_ & _ & _ & Hmean).
  apply (Hmean 15 3 eq_refl eq_refl). lra.
Defined.

(** The boundary scenarios of the specification: with mean 15 and standard
    deviation 3 a reading of 21 is within the range and 21.01 is outside. *)
Example reading_on_the_upper_bound :
  assess [mkStat "Berlin" "winter" (Some 15) (Some 3)] "Berlin" "winter"
    (FetchedTemp 21) empty_world
  = (Ok tt, wrote WithinRange empty_world).
Proof.
  rewrite (assess_run [mkStat "Berlin" "winter" (Some 15) (Some 3)] "Berlin" "winter"
             (mkStat "Berlin" "winter" (Some 15) (Some 3)) [] 21 empty_world eq_refl).
  replace (fle _ _ && fle _ _) with true; [reflexivity |].
  symmetry. apply in_range_true_iff. exists 15, 3. simpl. repeat split; auto; lra.
Qed.

Example reading_just_above_the_upper_bound :
  assess [mkStat "Berlin" "winter" (Some 15) (Some 3)] "Berlin" "winter"
    (FetchedTemp (2101 / 100)) empty_world
  = (Ok tt, wrote OutsideRange empty_world).
Proof.
  rewrite (assess_run [mkStat "Berlin" "winter" (Some 15) (Some 3)] "Berlin" "winter"
             (mkStat "Berlin" "winter" (Some 15) (Some 3)) [] (2101 / 100) empty_world
             eq_refl).
  destruct (fle _ _ && fle _ _) eqn:E; [| reflexivity].
  apply in_range_true_iff in E. destruct E as (m & s & Hm & Hs & _ & H2).
  simpl in Hm, Hs. injection Hm as <-. injection Hs as <-. lra.
Qed.

(** ** A missing row of the table *)

(** C7, as the code has it: when the table has no row for the (city, season)
    pair, the live check raises Python's [IndexError] (position 0 of an empty
    selection) and writes nothing, so no "outside the normal range" line
    appears. *)
Theorem assess_missing_stat_raises_index_error
    (season_stats : list SeasonalStat) (city season : string)
    (current_temp : fetched) (w : world) :
  select_stats season_stats city season = [] ->
  assess season_stats city season current_temp w = (Raise "IndexError"%string, w)
  /\ assess season_stats city season current_temp w <> (Ok tt, wrote OutsideRange w).
Proof.
  intros H. unfold assess. rewrite H. split; [reflexivity | discriminate].
Qed.

Lemma assess_missing_stat_raises_index_error_witness :
  assess [mkStat "Berlin" "winter" (Some 15) (Some 3)] "Berlin" "summer"
    (FetchedTemp 21) empty_world
  = (Raise "IndexError"%string, empty_world).
Proof.
  apply (assess_missing_stat_raises_index_error
           [mkStat "Berlin" "winter" (Some 15) (Some 3)] "Berlin" "summer"
           (FetchedTemp 21) empty_world eq_refl).
Defined.

(** C7, as the specification words it, fails: the error raised for a missing
    row is not a [MissingSeasonalStat]. *)
Lemma assess_missing_stat_is_not_typed :
  select_stats [mkStat "Berlin" "winter" (Some 15) (Some 3)] "Berlin" "summer" = []
  /\ forall w', assess [mkStat "Berlin" "winter" (Some 15) (Some 3)] "Berlin" "summer"
                  (FetchedTemp 21) empty_world
                <> (Raise "MissingSeasonalStat"%string, w').
Proof.
  split; [reflexivity |]. intros w' H. discriminate H.
Qed.

(** ** The reply of the weather service *)

Lemma monitoring_error_reply (city_data : ref) (season_stats : list SeasonalStat)
    (city : string) (code : Z) (msg : string) (w : world) :
  exists e w',
    monitoring city_data season_stats city (FetchedError code msg) w = (Raise e, w') /\
    written w' = written w ++ [CurrentTemperature city (FetchedError code msg)].
Proof.
  unfold monitoring, bind, st_write, read_frame. cbn [heap written].
  destruct (nth_error (heap w) city_data) as [df|]; [| eexists; eexists; split; reflexivity].
  destruct (rows df) as [|r0 rest]; cbn [map first_of raise];
    [eexists; eexists; split; reflexivity |].
  unfold ret, assess, bind.
  destruct (select_stats season_stats city (season r0)) as [|st rest'];
    cbn [map first_of raise ret in_range]; eexists; eexists; split; reflexivity.
Qed.

(** C6 on the code: a reply with status 401 comes back from
    [fetch_temperature_sync] as a [{code, message}] object, and [main] tests
    only [is not None].  The object is therefore taken for a reading: it is
    written to the page as the current temperature and sent to the range check,
    which stops on an exception; the line "Failed to fetch current temperature.
    Check your API key." is written for a [None] reply only. *)
Theorem invalid_key_reply_taken_as_reading :
  (forall (city api_key : string) (body : R),
     fetch_temperature_sync (fun _ => mkResponse 401 body) city api_key
     = FetchedError 401 invalid_key_message) /\
  (forall (city_data : ref) (season_stats : list SeasonalStat) (city : string)
          (code : Z) (msg : string) (w : world),
     exists e w',
       monitoring city_data season_stats city (FetchedError code msg) w = (Raise e, w') /\
       written w' = written w ++ [CurrentTemperature city (FetchedError code msg)]) /\
  (forall (city_data : ref) (season_stats : list SeasonalStat) (city : string) (w : world),
     monitoring city_data season_stats city FetchedNone w = (Ok tt, wrote FailedToFetch w)).
Proof.
  split; [| split].
  - intros city api_key body. reflexivity.
  - apply monitoring_error_reply.
  - intros city_data season_stats city w. reflexivity.
Qed.

(** [main] on an uploaded file of two winter readings for Berlin, with a key
    the service rejects. *)
Example main_with_rejected_key :
  exists w',
    main (fun _ => mkResponse 401 0)
      (Some [mkReading "Berlin" 1 "winter" 5; mkReading "Berlin" 2 "winter" 7])
      "Berlin" "secret" empty_world
    = (Raise "TypeError"%string, w')
    /\ written w'
       = [CurrentTemperature "Berlin" (FetchedError 401 invalid_key_message)].
Proof.
  eexists. split.
  - cbv -[Rplus Rminus Rmult Rdiv sqrt INR pow IZR Rle_dec Rlt_dec]. reflexivity.
  - reflexivity.
Qed.

(** ** The season of the live check *)

Lemma select_as_filter {A : Type} (p : A -> bool) (l : list A) :
  select (map p l) l = filter p l.
Proof.
  induction l as [|a l IH]; simpl; [reflexivity |]. rewrite IH. reflexivity.
Qed.

Lemma bind_ok {A B : Type} (m : M A) (k : A -> M B) (w w' : world) (a : A) :
  m w = (Ok a, w') -> bind m k w = k a w'.
Proof. intros H. unfold bind. rewrite H. reflexivity. Qed.

(** The state in which [main] reaches the monitoring part: the uploaded frame
    at reference 0, untouched, and the analysed slice of the city at
    reference 1. *)
Lemma main_run (requests_get : string -> response) (f : list Reading)
    (city api_key : string) :
  api_key <> EmptyString ->
  exists city_df,
    rows city_df = filter (in_city city) f /\
    main requests_get (Some f) city api_key empty_world
    = monitoring 1 (aggregate f) city (fetch_temperature_sync requests_get city api_key)
        (mkWorld [load_data f; city_df] []).
Proof.
  intros Hkey.
  set (cd := select_city city (load_data f)).
  set (cd1 := with_moving_columns default_window cd).
  set (cd2 := set_anomaly
                (anomaly_mask (temperatures cd1)
                   (Rolling.rolling_mean default_window (temperatures cd))
                   (Rolling.rolling_std default_window (temperatures cd))) cd1).
  exists cd2. split.
  - unfold cd2, cd1, cd. simpl. apply select_as_filter.
  - unfold main.
    rewrite (bind_ok (new_frame (load_data f)) _ empty_world
               (mkWorld [load_data f] []) 0%nat eq_refl).
    rewrite (bind_ok (read_frame 0) _ (mkWorld [load_data f] [])
               (mkWorld [load_data f] []) (load_data f) eq_refl).
    rewrite (bind_ok (new_frame (select_city city (load_data f))) _
               (mkWorld [load_data f] []) (mkWorld [load_data f; cd] []) 1%nat eq_refl).
    rewrite (bind_ok _ _ _ _ _
               (calculate_moving_average_run (mkWorld [load_data f; cd] []) 1
                  default_window cd eq_refl)).
    change (put_frame 1 (with_moving_columns default_window cd)
              (mkWorld [load_data f; cd] []))
      with (mkWorld [load_data f; cd1] []).
    rewrite (bind_ok _ _ _ _ _
               (detect_anomalies_run (mkWorld [load_data f; cd1] []) 1 cd1 _ _
                  eq_refl eq_refl eq_refl)).
    change (put_frame 1
              (set_anomaly
                 (anomaly_mask (temperatures cd1)
                    (Rolling.rolling_mean default_window (temperatures cd))
                    (Rolling.rolling_std default_window (temperatures cd))) cd1)
              (mkWorld [load_data f; cd1] []))
      with (mkWorld [load_data f; cd2] []).
    rewrite (bind_ok _ _ _ _ _
               (seasonal_statistics_run (mkWorld [load_data f; cd2] []) 0
                  (load_data f) eq_refl)).
    cbn [rows load_data].
    destruct (String.eqb_spec api_key EmptyString); [contradiction | reflexivity].
Qed.

Lemma monitoring_first_row (city_data : ref) (season_stats : list SeasonalStat)
    (city : string) (current_temp : fetched) (w : world) (df : DataFrame)
    (r0 : Reading) (rest : list Reading) :
  nth_error (heap w) city_data = Some df ->
  rows df = r0 :: rest ->
  current_temp <> FetchedNone ->
  monitoring city_data season_stats city current_temp w
  = assess season_stats city (season r0) current_temp
      (wrote (CurrentTemperature city current_temp) w).
Proof.
  intros H Hrows Hct. unfold monitoring.
  destruct current_temp as [t | code msg |]; [| | congruence];
    unfold bind, st_write, read_frame; cbn [heap written]; rewrite H, Hrows; reflexivity.
Qed.


(** C10: the season of the live check is the season of the first row of the
    slice of the selected city: the check [main] runs is the one against the
    statistics of [(city, season of that row)], whatever the later rows hold;
    when the slice is in ascending order of timestamp, no row of it is earlier
    than that one. *)
Theorem live_check_uses_first_row_season
    (requests_get : string -> response) (f : list Reading) (city api_key : string)
    (r0 : Reading) (rest : list Reading) :
  api_key <> EmptyString ->
  fetch_temperature_sync requests_get city api_key <> FetchedNone ->
  filter (in_city city) f = r0 :: rest ->
  (exists w1,
     written w1
     = [CurrentTemperature city (fetch_temperature_sync requests_get city api_key)] /\
     main requests_get (Some f) city api_key empty_world
     = assess (aggregate f) city (season r0)
         (fetch_temperature_sync requests_get city api_key) w1) /\
  (Sorted (fun a b => (timestamp a <= timestamp b)%Z) (r0 :: rest) ->
   forall r, In r (r0 :: rest) -> (timestamp r0 <= timestamp r)%Z).
Proof.
  intros Hkey Hct Hslice. split.
  - destruct (main_run requests_get f city api_key Hkey) as (city_df & Hrows & Hmain).
    rewrite Hslice in Hrows.
    exists (wrote (CurrentTemperature city (fetch_temperature_sync requests_get city api_key))
              (mkWorld [load_data f; city_df] [])).
    split; [reflexivity |].
    rewrite Hmain.
    apply (monitoring_first_row 1 (aggregate f) city _
             (mkWorld [load_data f; city_df] []) city_df r0 rest eq_refl Hrows Hct).
  - intros Hsorted r Hr.
    apply Sorted_StronglySorted in Hsorted.
    + inversion Hsorted as [|? ? _ Hall]; subst.
      destruct Hr as [<- | Hr]; [lia |].
      rewrite Forall_forall in Hall. apply Hall. assumption.
    + intros a b c Hab Hbc. lia.
Qed.

Lemma live_check_uses_first_row_season_witness :
  exists w1,
    main (fun _ => mkResponse 200 4)
      (Some [mkReading "Berlin" 1 "winter" 5; mkReading "Cairo" 1 "winter" 20;
             mkReading "Berlin" 2 "spring" 7])
      "Berlin" "secret" empty_world
    = assess
        (aggregate [mkReading "Berlin" 1 "winter" 5; mkReading "Cairo" 1 "winter" 20;
                    mkReading "Berlin" 2 "spring" 7])
        "Berlin" "winter" (FetchedTemp 4) w1.
Proof.
  destruct (live_check_uses_first_row_season (fun _ => mkResponse 200 4)
              [mkReading "Berlin" 1 "winter" 5; mkReading "Cairo" 1 "winter" 20;
               mkReading "Berlin" 2 "spring" 7]
              "Berlin" "secret"
              (mkReading "Berlin" 1 "winter" 5) [mkReading "Berlin" 2 "spring" 7])
    as [(w1 & _ & Hmain) _].
  - discriminate.
  - discriminate.
  - reflexivity.
  - exists w1. exact Hmain.
Defined.

(** * Further properties of the program *)

(** ** The analysis of one frame: [parallel_analyze] *)

Lemma put_frame_twice (r : ref) (a b : DataFrame) (w : world) :
  put_frame r a (put_frame r b w) = put_frame r a w.
Proof. unfold put_frame. simpl. rewrite replace_at_twice. reflexivity. Qed.

Lemma nth_error_put_frame (r : ref) (a df : DataFrame) (w : world) :
  nth_error (heap w) r = Some df -> nth_error (heap (put_frame r a w)) r = Some a.
Proof. intros H. simpl. eapply nth_error_replace_at_same. eassumption. Qed.

Lemma parallel_analyze_run (w : world) (data : ref) (df : DataFrame) :
  nth_error (heap w) data = Some df ->
  parallel_analyze data w = (Ok data, put_frame data (analysed df) w).
Proof.
  intros H. unfold parallel_analyze.
  rewrite (bind_ok _ _ _ _ _ (calculate_moving_average_run w data default_window df H)).
  rewrite (bind_ok _ _ _ _ _
             (detect_anomalies_run _ data (with_moving_columns default_window df) _ _
                (nth_error_put_frame data _ df w H) eq_refl eq_refl)).
  unfold ret. rewrite put_frame_twice. reflexivity.
Qed.

Lemma length_temperatures (df : DataFrame) : length (temperatures df) = length (rows df).
Proof. unfold temperatures. apply length_map. Qed.

Lemma length_rolling (stat : list R -> fnum) (window : nat) (df : DataFrame) :
  length (Rolling.roll stat window [] (temperatures df)) = length (rows df).
Proof. rewrite length_roll. apply length_temperatures. Qed.

(** X1: on any frame [parallel_analyze] succeeds (no [KeyError]: the columns
    [detect_anomalies] reads were assigned just before); it returns the frame
    it was given, now with the three columns [moving_avg], [moving_std] and
    [anomaly], each holding one cell per row; the rows, the other frames and
    the page are unchanged. *)
Theorem parallel_analyze_columns (w : world) (data : ref) (df : DataFrame) :
  nth_error (heap w) data = Some df ->
  exists w' df' avg sd flags,
    parallel_analyze data w = (Ok data, w') /\
    nth_error (heap w') data = Some df' /\
    rows df' = rows df /\
    moving_avg df' = Some avg /\
    moving_std df' = Some sd /\
    anomaly df' = Some flags /\
    length avg = length (rows df) /\
    length sd = length (rows df) /\
    length flags = length (rows df) /\
    written w' = written w /\
    (forall r, r <> data -> nth_error (heap w') r = nth_error (heap w) r).
Proof.
  intros H.
  exists (put_frame data (analysed df) w), (analysed df),
    (Rolling.rolling_mean default_window (temperatures df)),
    (Rolling.rolling_std default_window (temperatures df)),
    (anomaly_mask (temperatures df)
       (Rolling.rolling_mean default_window (temperatures df))
       (Rolling.rolling_std default_window (temperatures df))).
  split; [apply parallel_analyze_run; assumption |].
  split; [eapply nth_error_put_frame; eassumption |].
  repeat split; try reflexivity.
  - apply length_rolling.
  - apply length_rolling.
  - rewrite length_anomaly_mask; [apply length_temperatures | |];
      unfold Rolling.rolling_mean, Rolling.rolling_std; rewrite length_roll; reflexivity.
  - intros r Hr. simpl. apply nth_error_replace_at_other. congruence.
Qed.

Lemma parallel_analyze_columns_witness :
  exists w' df' flags,
    parallel_analyze 0
      (mkWorld [load_data [mkReading "Berlin" 1 "winter" 5; mkReading "Berlin" 2 "winter" 7]] [])
    = (Ok 0%nat, w') /\
    nth_error (heap w') 0 = Some df' /\
    anomaly df' = Some flags /\
    length flags = 2%nat.
Proof.
  destruct (parallel_analyze_columns
              (mkWorld [load_data [mkReading "Berlin" 1 "winter" 5;
                                   mkReading "Berlin" 2 "winter" 7]] [])
              0%nat _ eq_refl)
    as (w' & df' & avg & sd & flags & Hrun & Hat & _ & _ & _ & Hflags & _ & _ & Hlen & _).
  exists w', df', flags. repeat split; assumption.
Defined.

(** X2: [detect_anomalies] on a frame that lacks [moving_avg] or [moving_std]
    (a frame [calculate_moving_average] was not applied to) raises [KeyError]
    and assigns nothing. *)
Theorem detect_anomalies_missing_column (w : world) (data : ref) (df : DataFrame) :
  nth_error (heap w) data = Some df ->
  moving_avg df = None \/ moving_std df = None ->
  detect_anomalies data w = (Raise "KeyError"%string, w).
Proof.
  intros H Hmiss. unfold detect_anomalies, bind, read_frame. rewrite H.
  destruct Hmiss as [Hm | Hm]; rewrite Hm; [| destruct (moving_avg df)]; reflexivity.
Qed.

Lemma detect_anomalies_missing_column_witness :
  detect_anomalies 0 (mkWorld [load_data [mkReading "Berlin" 1 "winter" 5]] [])
  = (Raise "KeyError"%string, mkWorld [load_data [mkReading "Berlin" 1 "winter" 5]] []).
Proof.
  apply (detect_anomalies_missing_column
           (mkWorld [load_data [mkReading "Berlin" 1 "winter" 5]] []) 0%nat
           (load_data [mkReading "Berlin" 1 "winter" 5]) eq_refl).
  left. reflexivity.
Defined.

(** X3: [detect_anomalies] is idempotent: once it has run on a frame, running
    it again on that frame changes nothing. *)
Theorem detect_anomalies_twice
    (w : world) (data : ref) (df : DataFrame) (avg sd : list fnum) :
  nth_error (heap w) data = Some df ->
  moving_avg df = Some avg ->
  moving_std df = Some sd ->
  exists w',
    detect_anomalies data w = (Ok data, w') /\
    detect_anomalies data w' = (Ok data, w').
Proof.
  intros H Ha Hs.
  exists (put_frame data (set_anomaly (anomaly_mask (temperatures df) avg sd) df) w).
  split; [apply detect_anomalies_run; assumption |].
  rewrite (detect_anomalies_run _ data
             (set_anomaly (anomaly_mask (temperatures df) avg sd) df) avg sd
             (nth_error_put_frame data _ df w H) Ha Hs).
  rewrite put_frame_twice. reflexivity.
Qed.

Lemma detect_anomalies_twice_witness :
  exists w',
    detect_anomalies 0
      (mkWorld [mkFrame [mkReading "Berlin" 6 "winter" 30] (Some [Some 10]) (Some [Some 0]) None] [])
    = (Ok 0%nat, w') /\
    detect_anomalies 0 w' = (Ok 0%nat, w').
Proof.
  apply (detect_anomalies_twice
           (mkWorld [mkFrame [mkReading "Berlin" 6 "winter" 30]
                       (Some [Some 10]) (Some [Some 0]) None] [])
           0%nat _ [Some 10] [Some 0] eq_refl eq_refl eq_refl).
Defined.

(** ** Short series and later readings *)

Lemma all_false (l : list bool) :
  (forall i b, nth_error l i = Some b -> b = false) -> l = repeat false (length l).
Proof.
  induction l as [|b l IH]; intros H; simpl; [reflexivity |].
  rewrite (H 0%nat b eq_refl). f_equal. apply IH.
  intros i b' Hi. apply (H (S i) b'). exact Hi.
Qed.

Lemma mask_cell_undefined_mean (temp : list R) (avg sd : list fnum) (i : nat) (ms : fnum) :
  (i < length temp)%nat ->
  nth_error avg i = Some NaN -> nth_error sd i = Some ms ->
  nth_error (anomaly_mask temp avg sd) i = Some false.
Proof.
  intros Hi Ha Hs.
  destruct (nth_error temp i) as [t|] eqn:Ht; [| apply nth_error_None in Ht; lia].
  rewrite (nth_error_anomaly_mask temp avg sd i t NaN ms Ht Ha Hs). reflexivity.
Qed.

Lemma mask_of_short_series (window : nat) (temp : list R) :
  (length temp < window)%nat ->
  anomaly_mask temp (Rolling.rolling_mean window temp) (Rolling.rolling_std window temp)
  = repeat false (length temp).
Proof.
  intros Hshort.
  assert (Hlen : length (anomaly_mask temp (Rolling.rolling_mean window temp)
                           (Rolling.rolling_std window temp)) = length temp).
  { apply length_anomaly_mask; unfold Rolling.rolling_mean, Rolling.rolling_std;
      apply length_roll. }
  rewrite <- Hlen. apply all_false. intros i b Hb.
  assert (Hi : (i < length temp)%nat).
  { rewrite <- Hlen. apply nth_error_Some. rewrite Hb. discriminate. }
  rewrite (mask_cell_undefined_mean temp _ _ i NaN Hi) in Hb.
  - congruence.
  - apply roll_warm_up; lia.
  - apply roll_warm_up; lia.
Qed.

(** X4: a series with fewer readings than the window has no anomaly at all:
    after [calculate_moving_average] and [detect_anomalies] every flag is
    false.  For [parallel_analyze], whose window is 30, this is the case of
    every frame of fewer than 30 rows. *)
Theorem short_series_never_flagged
    (w : world) (data : ref) (window : nat) (df : DataFrame) :
  nth_error (heap w) data = Some df ->
  (length (rows df) < window)%nat ->
  (exists w1 w2 df2,
     calculate_moving_average data window w = (Ok data, w1) /\
     detect_anomalies data w1 = (Ok data, w2) /\
     nth_error (heap w2) data = Some df2 /\
     anomaly df2 = Some (repeat false (length (rows df)))) /\
  (window = default_window ->
   exists w' df',
     parallel_analyze data w = (Ok data, w') /\
     nth_error (heap w') data = Some df' /\
     anomaly df' = Some (repeat false (length (rows df)))).
Proof.
  intros H Hshort.
  assert (Hmask : anomaly_mask (temperatures df)
                    (Rolling.rolling_mean window (temperatures df))
                    (Rolling.rolling_std window (temperatures df))
                  = repeat false (length (rows df))).
  { rewrite <- (length_temperatures df). apply mask_of_short_series.
    rewrite length_temperatures. assumption. }
  split.
  - exists (put_frame data (with_moving_columns window df) w),
      (put_frame data
         (set_anomaly
            (anomaly_mask (temperatures df)
               (Rolling.rolling_mean window (temperatures df))
               (Rolling.rolling_std window (temperatures df)))
            (with_moving_columns window df)) w),
      (set_anomaly
         (anomaly_mask (temperatures df)
            (Rolling.rolling_mean window (temperatures df))
            (Rolling.rolling_std window (temperatures df)))
         (with_moving_columns window df)).
    split; [apply calculate_moving_average_run; assumption |].
    split.
    + rewrite (detect_anomalies_run _ data (with_moving_columns window df) _ _
                 (nth_error_put_frame data _ df w H) eq_refl eq_refl).
      rewrite put_frame_twice. reflexivity.
    + split; [eapply nth_error_put_frame; eassumption |].
      simpl. f_equal. exact Hmask.
  - intros ->.
    exists (put_frame data (analysed df) w), (analysed df).
    split; [apply parallel_analyze_run; assumption |].
    split; [eapply nth_error_put_frame; eassumption |].
    unfold analysed. simpl. f_equal. exact Hmask.
Qed.

Lemma short_series_never_flagged_witness :
  exists w' df',
    parallel_analyze 0
      (mkWorld [load_data [mkReading "Berlin" 1 "winter" 5; mkReading "Berlin" 2 "winter" 70]] [])
    = (Ok 0%nat, w') /\
    nth_error (heap w') 0 = Some df' /\
    anomaly df' = Some [false; false].
Proof.
  destruct (short_series_never_flagged
              (mkWorld [load_data [mkReading "Berlin" 1 "winter" 5;
                                   mkReading "Berlin" 2 "winter" 70]] [])
              0%nat default_window _ eq_refl) as [_ Hpar].
  - simpl. unfold default_window. lia.
  - exact (Hpar eq_refl).
Defined.

Lemma roll_prefix (stat : list R -> fnum) (window : nat) (xs ys : list R) (i : nat) :
  (i < length xs)%nat ->
  nth_error (Rolling.roll stat window [] (xs ++ ys)) i
  = nth_error (Rolling.roll stat window [] xs) i.
Proof.
  intros Hi.
  change (@nil R) with (Rolling.lastn window []).
  rewrite !nth_error_roll by (rewrite ?length_app; lia).
  rewrite firstn_app.
  replace (S i - length xs)%nat with 0%nat by lia.
  rewrite firstn_0, app_nil_r. reflexivity.
Qed.

Lemma mask_prefix (xs ys : list R) (avg1 sd1 avg2 sd2 : list fnum) (i : nat) :
  (i < length xs)%nat ->
  length avg1 = length xs -> length sd1 = length xs ->
  nth_error avg2 i = nth_error avg1 i ->
  nth_error sd2 i = nth_error sd1 i ->
  nth_error (anomaly_mask (xs ++ ys) avg2 sd2) i = nth_error (anomaly_mask xs avg1 sd1) i.
Proof.
  intros Hi Hla Hls Ha Hs.
  destruct (nth_error xs i) as [t|] eqn:Ht; [| apply nth_error_None in Ht; lia].
  destruct (nth_error avg1 i) as [ma|] eqn:Hma; [| apply nth_error_None in Hma; lia].
  destruct (nth_error sd1 i) as [ms|] eqn:Hms; [| apply nth_error_None in Hms; lia].
  rewrite (nth_error_anomaly_mask xs avg1 sd1 i t ma ms Ht Hma Hms).
  apply nth_error_anomaly_mask; auto.
  rewrite nth_error_app1 by assumption. exact Ht.
Qed.

(** X5: later readings never change what was computed for earlier ones: when
    a frame holds the rows of another followed by more rows, [parallel_analyze]
    gives, at every position of the shorter frame, the same moving mean, the
    same moving standard deviation and the same flag on both. *)
Theorem parallel_analyze_prefix
    (w1 w2 : world) (d1 d2 : ref) (df1 df2 : DataFrame) (extra : list Reading) :
  nth_error (heap w1) d1 = Some df1 ->
  nth_error (heap w2) d2 = Some df2 ->
  rows df2 = rows df1 ++ extra ->
  exists w1' w2' a1 a2,
    parallel_analyze d1 w1 = (Ok d1, w1') /\
    parallel_analyze d2 w2 = (Ok d2, w2') /\
    nth_error (heap w1') d1 = Some a1 /\
    nth_error (heap w2') d2 = Some a2 /\
    forall i, (i < length (rows df1))%nat ->
      cell (moving_avg a2) i = cell (moving_avg a1) i /\
      cell (moving_std a2) i = cell (moving_std a1) i /\
      cell (anomaly a2) i = cell (anomaly a1) i /\
      exists b, cell (anomaly a1) i = Some b.
Proof.
  intros H1 H2 Hrows.
  exists (put_frame d1 (analysed df1) w1), (put_frame d2 (analysed df2) w2),
    (analysed df1), (analysed df2).
  split; [apply parallel_analyze_run; assumption |].
  split; [apply parallel_analyze_run; assumption |].
  split; [eapply nth_error_put_frame; eassumption |].
  split; [eapply nth_error_put_frame; eassumption |].
  intros i Hi.
  assert (Ht : temperatures df2 = temperatures df1 ++ map temperature extra).
  { unfold temperatures. rewrite Hrows, map_app. reflexivity. }
  assert (Hi' : (i < length (temperatures df1))%nat)
    by (rewrite length_temperatures; assumption).
  unfold analysed, cell. simpl. rewrite Ht.
  unfold Rolling.rolling_mean, Rolling.rolling_std.
  split; [apply roll_prefix; assumption |].
  split; [apply roll_prefix; assumption |].
  split.
  - apply mask_prefix; auto; try apply length_roll; apply roll_prefix; assumption.
  - destruct (nth_error (anomaly_mask (temperatures df1)
                           (Rolling.roll Stats.mean default_window [] (temperatures df1))
                           (Rolling.roll Stats.std default_window [] (temperatures df1))) i)
      as [b|] eqn:E; [exists b; reflexivity |].
    apply nth_error_None in E.
    rewrite length_anomaly_mask in E; try apply length_roll. lia.
Qed.

Lemma parallel_analyze_prefix_witness :
  exists w1' w2' a1 a2,
    parallel_analyze 0 (mkWorld [load_data [mkReading "Berlin" 1 "winter" 5]] [])
    = (Ok 0%nat, w1') /\
    parallel_analyze 0
      (mkWorld [load_data [mkReading "Berlin" 1 "winter" 5; mkReading "Berlin" 2 "winter" 70]] [])
    = (Ok 0%nat, w2') /\
    nth_error (heap w1') 0 = Some a1 /\
    nth_error (heap w2') 0 = Some a2 /\
    cell (anomaly a2) 0 = cell (anomaly a1) 0.
Proof.
  destruct (parallel_analyze_prefix
              (mkWorld [load_data [mkReading "Berlin" 1 "winter" 5]] [])
              (mkWorld [load_data [mkReading "Berlin" 1 "winter" 5;
                                   mkReading "Berlin" 2 "winter" 70]] [])
              0%nat 0%nat _ _ [mkReading "Berlin" 2 "winter" 70] eq_refl eq_refl eq_refl)
    as (w1' & w2' & a1 & a2 & Hr1 & Hr2 & Ha1 & Ha2 & Hcells).
  exists w1', w2', a1, a2.
  destruct (Hcells 0%nat) as (_ & _ & Hflag & _); [simpl; lia |].
  repeat split; assumption.
Defined.

(** ** How far a value can lie from the mean of its own sample *)

Section Spread.

Import Stats.



Lemma sum_squares_nonneg (f : R -> R) (l : list R) :
  0 <= sum (map (fun y => f y ^ 2) l).
Proof.
  induction l as [|a l IH]; [simpl; lra |].
  change (sum (map (fun y => f y ^ 2) (a :: l)))
    with (f a ^ 2 + sum (map (fun y => f y ^ 2) l)).
  pose proof (pow2_ge_0 (f a)). lra.
Qed.




End Spread.

(** ** Small windows and small seasonal groups *)







(** ** More on the seasonal table *)

(** X8: the rows of the table of [seasonal_statistics] come in strictly
    ascending order of (city, season), cities first. *)
Theorem seasonal_statistics_sorted (w : world) (data : ref) (df : DataFrame) :
  nth_error (heap w) data = Some df ->
  exists stats,
    seasonal_statistics data w = (Ok stats, w) /\
    StronglySorted (fun a b => Key.compare a b = Lt) (map stat_key stats).
Proof.
  intros H. exists (aggregate (rows df)).
  split; [apply seasonal_statistics_run; assumption |].
  rewrite stat_key_aggregate.
  destruct (groups_of_groupby (rows df)) as [Hs _]. exact Hs.
Qed.

Lemma seasonal_statistics_sorted_witness :
  exists stats,
    seasonal_statistics 0
      (mkWorld [load_data [mkReading "Cairo" 1 "winter" 20; mkReading "Berlin" 1 "winter" 5;
                           mkReading "Berlin" 2 "spring" 7]] [])
    = (Ok stats,
       mkWorld [load_data [mkReading "Cairo" 1 "winter" 20; mkReading "Berlin" 1 "winter" 5;
                           mkReading "Berlin" 2 "spring" 7]] []) /\
    StronglySorted (fun a b => Key.compare a b = Lt) (map stat_key stats).
Proof.
  apply (seasonal_statistics_sorted
           (mkWorld [load_data [mkReading "Cairo" 1 "winter" 20; mkReading "Berlin" 1 "winter" 5;
                                mkReading "Berlin" 2 "spring" 7]] [])
           0%nat _ eq_refl).
Defined.

(** X9: in every row of the table the mean is defined; the standard deviation
    is defined exactly when the pair has at least two readings, and then it is
    the non-negative number whose square, times the number of readings minus
    one, is the sum of the squared deviations from the mean. *)
Theorem seasonal_std_defined_iff (data : list Reading) (st : SeasonalStat) :
  In st (aggregate data) ->
  let g := Spec.group data (stat_city st) (stat_season st) in
  stat_mean st = Some (Spec.group_mean data (stat_city st) (stat_season st)) /\
  ((exists sd, stat_std st = Some sd) <-> (2 <= length g)%nat) /\
  (forall sd, stat_std st = Some sd ->
     0 <= sd /\
     sd * sd * INR (length g - 1)
     = Stats.sq_dev (Spec.group_mean data (stat_city st) (stat_season st))
         (map temperature g)).
Proof.
  intros Hin g. apply aggregate_In in Hin.
  destruct Hin as (c & s & Hne & ->). simpl in g. fold g in Hne. simpl.
  fold g.
  assert (Hlen : length (map temperature g) = length g) by apply length_map.
  split; [apply mean_nonempty; assumption |].
  unfold Stats.std, Stats.ddof. rewrite Hlen.
  destruct (Nat.ltb_spec 1 (length g)) as [Hn | Hn].
  - split.
    + split; [intros _; lia | intros _; eexists; reflexivity].
    + intros sd Hsd. injection Hsd as <-. split; [apply sqrt_pos |].
      unfold Spec.group_mean. fold g.
      assert (Hk : 1 <= INR (length g - 1)) by (change 1 with (INR 1); apply le_INR; lia).
      rewrite sqrt_sqrt.
      * field. lra.
      * apply Rmult_le_pos.
        -- unfold Stats.sq_dev.
           apply (sum_squares_nonneg
                    (fun y => y - Stats.sum (map temperature g) / INR (length g))).
        -- apply Rlt_le, Rinv_0_lt_compat. lra.
  - split.
    + split; [intros [sd Hsd]; discriminate | intros; lia].
    + intros sd Hsd. discriminate.
Qed.

Lemma seasonal_std_defined_iff_witness :
  stat_mean (mkStat "Cairo" "winter" (Some (20 / 1)) NaN)
  = Some (Spec.group_mean
            [mkReading "Berlin" 1 "winter" 5; mkReading "Cairo" 1 "winter" 20]
            "Cairo" "winter").
Proof.
  destruct (seasonal_std_defined_iff
              [mkReading "Berlin" 1 "winter" 5; mkReading "Cairo" 1 "winter" 20]
              (mkStat "Cairo" "winter" (Some (Spec.group_mean
                  [mkReading "Berlin" 1 "winter" 5; mkReading "Cairo" 1 "winter" 20]
                  "Cairo" "winter")) NaN))
    as (Hmean & _).
  - simpl. right. left. reflexivity.
  - simpl in Hmean. simpl. unfold Spec.group_mean. simpl. f_equal. lra.
Defined.

(** ** The runs of [main] *)

(** The state in which [main] leaves the analysis: the uploaded frame at
    reference 0 and the analysed slice of the city at reference 1. *)
Lemma main_after_analysis (requests_get : string -> response) (f : list Reading)
    (city api_key : string) :
  main requests_get (Some f) city api_key empty_world
  = (if String.eqb api_key EmptyString then ret tt
     else monitoring 1 (aggregate f) city
            (fetch_temperature_sync requests_get city api_key))
      (mkWorld [load_data f; analysed (select_city city (load_data f))] []).
Proof.
  set (cd := select_city city (load_data f)).
  set (cd1 := with_moving_columns default_window cd).
  unfold main.
  rewrite (bind_ok (new_frame (load_data f)) _ empty_world
             (mkWorld [load_data f] []) 0%nat eq_refl).
  rewrite (bind_ok (read_frame 0) _ (mkWorld [load_data f] [])
             (mkWorld [load_data f] []) (load_data f) eq_refl).
  rewrite (bind_ok (new_frame (select_city city (load_data f))) _
             (mkWorld [load_data f] []) (mkWorld [load_data f; cd] []) 1%nat eq_refl).
  rewrite (bind_ok _ _ _ _ _
             (calculate_moving_average_run (mkWorld [load_data f; cd] []) 1
                default_window cd eq_refl)).
  change (put_frame 1 (with_moving_columns default_window cd)
            (mkWorld [load_data f; cd] []))
    with (mkWorld [load_data f; cd1] []).
  rewrite (bind_ok _ _ _ _ _
             (detect_anomalies_run (mkWorld [load_data f; cd1] []) 1 cd1 _ _
                eq_refl eq_refl eq_refl)).
  change (put_frame 1
            (set_anomaly
               (anomaly_mask (temperatures cd1)
                  (Rolling.rolling_mean default_window (temperatures cd))
                  (Rolling.rolling_std default_window (temperatures cd))) cd1)
            (mkWorld [load_data f; cd1] []))
    with (mkWorld [load_data f; analysed cd] []).
  rewrite (bind_ok _ _ _ _ _
             (seasonal_statistics_run (mkWorld [load_data f; analysed cd] []) 0
                (load_data f) eq_refl)).
  cbn [rows load_data].
  destruct (String.eqb api_key EmptyString); reflexivity.
Qed.

Lemma rows_analysed_slice (city : string) (f : list Reading) :
  rows (analysed (select_city city (load_data f))) = filter (in_city city) f.
Proof. simpl. apply select_as_filter. Qed.

Lemma assess_heap (season_stats : list SeasonalStat) (city season : string)
    (current_temp : fetched) (w : world) :
  heap (snd (assess season_stats city season current_temp w)) = heap w.
Proof.
  unfold assess, bind.
  destruct (select_stats season_stats city season) as [|st rest]; [reflexivity |].
  cbn -[fle lower_bound upper_bound].
  destruct current_temp as [t | code msg |]; cbn -[fle lower_bound upper_bound];
    try reflexivity.
  destruct (fle _ _ && fle _ _); reflexivity.
Qed.

Lemma monitoring_heap (city_data : ref) (season_stats : list SeasonalStat)
    (city : string) (current_temp : fetched) (w : world) :
  heap (snd (monitoring city_data season_stats city current_temp w)) = heap w.
Proof.
  unfold monitoring.
  destruct current_temp as [t | code msg |]; [| | reflexivity];
    unfold bind, st_write, read_frame; cbn [heap written];
    (destruct (nth_error (heap w) city_data) as [df|]; [| reflexivity]);
    (destruct (rows df) as [|r0 rest]; [reflexivity |]);
    cbn [map first_of ret];
    match goal with
    | |- heap (snd (assess ?a ?b ?c ?d ?e)) = _ => rewrite (assess_heap a b c d e)
    end; reflexivity.
Qed.

(** X10: whatever the key and whatever the service answers, and also when
    [main] stops on an exception, the uploaded dataset is left as it was
    loaded: the columns [moving_avg], [moving_std] and [anomaly] are assigned
    on the slice of the selected city, which is a frame of its own holding the
    readings of that city in the order of the file. *)
Theorem main_keeps_uploaded_frame (requests_get : string -> response)
    (f : list Reading) (city api_key : string) :
  exists city_df avg sd flags,
    heap (snd (main requests_get (Some f) city api_key empty_world))
    = [load_data f; city_df] /\
    rows city_df = filter (in_city city) f /\
    moving_avg city_df = Some avg /\
    moving_std city_df = Some sd /\
    anomaly city_df = Some flags /\
    length avg = length (rows city_df) /\
    length sd = length (rows city_df) /\
    length flags = length (rows city_df).
Proof.
  set (cd := select_city city (load_data f)).
  exists (analysed cd),
    (Rolling.rolling_mean default_window (temperatures cd)),
    (Rolling.rolling_std default_window (temperatures cd)),
    (anomaly_mask (temperatures cd)
       (Rolling.rolling_mean default_window (temperatures cd))
       (Rolling.rolling_std default_window (temperatures cd))).
  split.
  - rewrite main_after_analysis. fold cd.
    destruct (String.eqb api_key EmptyString); [reflexivity |].
    apply monitoring_heap.
  - split; [unfold cd; apply rows_analysed_slice |].
    change (rows (analysed cd)) with (rows cd).
    repeat split.
    + apply length_rolling.
    + apply length_rolling.
    + rewrite length_anomaly_mask; [apply length_temperatures | |];
        unfold Rolling.rolling_mean, Rolling.rolling_std; rewrite length_roll; reflexivity.
Qed.

(** X11: without an API key, and without a file, [main] does not reach the
    live check: it ends normally and writes no line of the monitoring part, for
    every file and every city, also a city that has no row in the file. *)
Theorem main_without_key (requests_get : string -> response)
    (file : option (list Reading)) (city : string) :
  (exists w', main requests_get file city EmptyString empty_world = (Ok tt, w')
              /\ written w' = []) /\
  (forall api_key, main requests_get None city api_key empty_world = (Ok tt, empty_world)).
Proof.
  split; [| reflexivity].
  destruct file as [f|].
  - rewrite main_after_analysis. simpl. eexists. split; reflexivity.
  - exists empty_world. split; reflexivity.
Qed.

Lemma fetch_status_200 (requests_get : string -> response) (city api_key : string) :
  status_code (requests_get (weather_url city api_key)) = 200%Z ->
  fetch_temperature_sync requests_get city api_key
  = FetchedTemp (json_main_temp (requests_get (weather_url city api_key))).
Proof. intros H. unfold fetch_temperature_sync. rewrite H. reflexivity. Qed.

Lemma fetch_status_401 (requests_get : string -> response) (city api_key : string) :
  status_code (requests_get (weather_url city api_key)) = 401%Z ->
  fetch_temperature_sync requests_get city api_key = FetchedError 401 invalid_key_message.
Proof. intros H. unfold fetch_temperature_sync. rewrite H. reflexivity. Qed.

Lemma fetch_status_other (requests_get : string -> response) (city api_key : string) :
  status_code (requests_get (weather_url city api_key)) <> 200%Z ->
  status_code (requests_get (weather_url city api_key)) <> 401%Z ->
  fetch_temperature_sync requests_get city api_key = FetchedNone.
Proof.
  intros H1 H2. unfold fetch_temperature_sync.
  destruct (Z.eqb_spec (status_code (requests_get (weather_url city api_key))) 200);
    [contradiction |].
  destruct (Z.eqb_spec (status_code (requests_get (weather_url city api_key))) 401);
    [contradiction | reflexivity].
Qed.

Lemma key_given (api_key : string) :
  api_key <> EmptyString -> String.eqb api_key EmptyString = false.
Proof. intros H. destruct (String.eqb_spec api_key EmptyString); [contradiction | reflexivity]. Qed.



(** X13: with a key and a reply whose status is neither 200 nor 401, [main]
    writes the single line "Failed to fetch current temperature. Check your API
    key." and ends normally, whatever the file holds. *)
Theorem main_failed_fetch (requests_get : string -> response) (f : list Reading)
    (city api_key : string) :
  api_key <> EmptyString ->
  status_code (requests_get (weather_url city api_key)) <> 200%Z ->
  status_code (requests_get (weather_url city api_key)) <> 401%Z ->
  exists w',
    main requests_get (Some f) city api_key empty_world = (Ok tt, w') /\
    written w' = [FailedToFetch].
Proof.
  intros Hkey H200 H401.
  rewrite main_after_analysis, (key_given _ Hkey), (fetch_status_other _ _ _ H200 H401).
  eexists. split; reflexivity.
Qed.

Lemma main_failed_fetch_witness :
  exists w',
    main (fun _ => mkResponse 404 0) (Some [mkReading "Berlin" 1 "winter" 5])
      "Berlin" "secret" empty_world
    = (Ok tt, w') /\
    written w' = [FailedToFetch].
Proof.
  apply (main_failed_fetch (fun _ => mkResponse 404 0) [mkReading "Berlin" 1 "winter" 5]
           "Berlin" "secret"); discriminate.
Defined.

(** X14: when the selected city has no row in the file (an empty file is the
    plain case) and the service answers with status 200 or 401, [main] writes
    the current temperature line and then stops on [IndexError], raised by
    [city_data['season'].iloc[0]]. *)
Theorem main_city_without_rows (requests_get : string -> response) (f : list Reading)
    (city api_key : string) :
  api_key <> EmptyString ->
  status_code (requests_get (weather_url city api_key)) = 200%Z
  \/ status_code (requests_get (weather_url city api_key)) = 401%Z ->
  filter (in_city city) f = [] ->
  exists w',
    main requests_get (Some f) city api_key empty_world = (Raise "IndexError"%string, w') /\
    written w'
    = [CurrentTemperature city (fetch_temperature_sync requests_get city api_key)].
Proof.
  intros Hkey Hstatus Hslice.
  rewrite main_after_analysis, (key_given _ Hkey).
  assert (Hrows : rows (analysed (select_city city (load_data f))) = [])
    by (rewrite rows_analysed_slice; assumption).
  destruct Hstatus as [H | H];
    [rewrite (fetch_status_200 _ _ _ H) | rewrite (fetch_status_401 _ _ _ H)];
    unfold monitoring, bind, st_write, read_frame; cbn [heap written nth_error];
    rewrite Hrows; eexists; split; reflexivity.
Qed.

Lemma main_city_without_rows_witness :
  exists w',
    main (fun _ => mkResponse 200 4) (Some []) "Berlin" "secret" empty_world
    = (Raise "IndexError"%string, w') /\
    written w'
    = [CurrentTemperature "Berlin"
         (fetch_temperature_sync (fun _ => mkResponse 200 4) "Berlin" "secret")].
Proof.
  apply (main_city_without_rows (fun _ => mkResponse 200 4) [] "Berlin" "secret").
  - discriminate.
  - left. reflexivity.
  - reflexivity.
Defined.



(** ** The two fetches *)

(** X16: [fetch_temperature] and [fetch_temperature_sync] agree on a reply of
    status 200 only.  On every other status the asynchronous one raises
    [AttributeError] (it asks the reply for [status_code], which the [aiohttp]
    reply does not have), where the synchronous one returns the
    [{code, message}] object for 401 and [None] otherwise. *)
Theorem fetch_temperature_against_sync
    (session_get : string -> aio_response) (requests_get : string -> response)
    (city api_key : string) :
  status (session_get (weather_url city api_key))
  = status_code (requests_get (weather_url city api_key)) ->
  aio_json_main_temp (session_get (weather_url city api_key))
  = json_main_temp (requests_get (weather_url city api_key)) ->
  (status_code (requests_get (weather_url city api_key)) = 200%Z ->
   fetch_temperature session_get city api_key
   = Ok (fetch_temperature_sync requests_get city api_key)) /\
  (status_code (requests_get (weather_url city api_key)) <> 200%Z ->
   fetch_temperature session_get city api_key = Raise "AttributeError"%string /\
   (fetch_temperature_sync requests_get city api_key = FetchedNone
    \/ fetch_temperature_sync requests_get city api_key
       = FetchedError 401 invalid_key_message)).
Proof.
  intros Hst Htemp. unfold fetch_temperature, fetch_temperature_sync.
  rewrite Hst, Htemp.
  destruct (Z.eqb_spec (status_code (requests_get (weather_url city api_key))) 200)
    as [H200 | H200].
  - split; [reflexivity | contradiction].
  - split; [contradiction |]. intros _. split; [reflexivity |].
    destruct (status_code (requests_get (weather_url city api_key)) =? 401)%Z; auto.
Qed.

Lemma fetch_temperature_against_sync_witness :
  fetch_temperature (fun _ => mkAioResponse 401 0) "Berlin" "secret"
  = Raise "AttributeError"%string.
Proof.
  destruct (fetch_temperature_against_sync
              (fun _ => mkAioResponse 401 0) (fun _ => mkResponse 401 0)
              "Berlin" "secret" eq_refl eq_refl) as [_ Hother].
  destruct Hother as [Hraise _]; [discriminate | exact Hraise].
Defined.

(** ** The analysis city by city *)

Section Cities.

Lemma existsb_seen (x : string) (seen : list string) :
  existsb (String.eqb x) seen = true <-> In x seen.
Proof.
  rewrite existsb_exists. split.
  - intros (y & Hy & E). apply String.eqb_eq in E. subst. assumption.
  - intros H. exists x. split; [assumption | apply String.eqb_refl].
Qed.

Lemma unique_from_In (seen l : list string) (x : string) :
  In x (unique_from seen l) <-> In x l /\ ~ In x seen.
Proof.
  revert seen. induction l as [|a l IH]; intros seen; simpl.
  - tauto.
  - destruct (existsb (String.eqb a) seen) eqn:E.
    + apply existsb_seen in E. rewrite IH. split.
      * intros [H1 H2]. auto.
      * intros [[-> | H1] H2]; [contradiction | auto].
    + assert (Ha : ~ In a seen).
      { intros H. apply existsb_seen in H. congruence. }
      simpl. rewrite IH. simpl. split.
      * intros [-> | [H1 H2]]; [auto |]. split; [auto |]. intros H. apply H2. auto.
      * intros [[-> | H1] H2]; [auto |].
        destruct (string_dec a x) as [-> | Hne]; [auto |].
        right. split; [assumption |]. intros [H | H]; [congruence | contradiction].
Qed.

Lemma unique_from_NoDup (seen l : list string) : NoDup (unique_from seen l).
Proof.
  revert seen. induction l as [|a l IH]; intros seen; simpl; [constructor |].
  destruct (existsb (String.eqb a) seen); [apply IH |].
  constructor; [| apply IH].
  intros H. apply unique_from_In in H. destruct H as [_ H]. apply H. left. reflexivity.
Qed.

Lemma unique_In (l : list string) (x : string) : In x (unique l) <-> In x l.
Proof. unfold unique. rewrite unique_from_In. simpl. tauto. Qed.

Lemma unique_nil_iff (l : list string) : unique l = [] <-> l = [].
Proof.
  split; [| intros ->; reflexivity].
  destruct l as [|a l]; [reflexivity |]. unfold unique. simpl. discriminate.
Qed.

Lemma filter_all {A : Type} (p : A -> bool) (l : list A) :
  (forall x, In x l -> p x = true) -> filter p l = l.
Proof.
  induction l as [|a l IH]; intros H; simpl; [reflexivity |].
  rewrite (H a (or_introl eq_refl)). f_equal. apply IH. intros x Hx. apply H. right. exact Hx.
Qed.

Lemma filter_disjoint {A : Type} (p q : A -> bool) (l : list A) :
  (forall x, p x = true -> q x = false) ->
  Permutation (filter p l ++ filter q l) (filter (fun x => p x || q x) l).
Proof.
  intros Hpq. induction l as [|a l IH]; simpl; [constructor |].
  destruct (p a) eqn:Ep.
  - rewrite (Hpq a Ep). simpl. constructor. exact IH.
  - destruct (q a) eqn:Eq; simpl.
    + apply Permutation_sym, Permutation_cons_app, Permutation_sym. exact IH.
    + exact IH.
Qed.

(** Dealing the readings out by city and taking the cities one after the other
    gives the readings back, in another order. *)
Lemma regroup_by_city (l : list Reading) (cs : list string) :
  NoDup cs ->
  Permutation (flat_map (fun c => filter (in_city c) l) cs)
              (filter (fun r => existsb (String.eqb (city r)) cs) l).
Proof.
  induction cs as [|c cs IH]; intros Hnd; simpl.
  - induction l as [|a l IHl]; simpl; [constructor | exact IHl].
  - inversion Hnd as [|? ? Hnot Hnd']; subst.
    eapply Permutation_trans; [apply Permutation_app_head, IH; assumption |].
    apply (filter_disjoint (in_city c) (fun r => existsb (String.eqb (city r)) cs)).
    intros r Hr. unfold in_city in Hr. apply String.eqb_eq in Hr.
    destruct (existsb (String.eqb (city r)) cs) eqn:E; [| reflexivity].
    apply existsb_seen in E. congruence.
Qed.

Lemma regroup_unique (l : list Reading) :
  Permutation (flat_map (fun c => filter (in_city c) l) (unique (map city l))) l.
Proof.
  eapply Permutation_trans; [apply regroup_by_city, unique_from_NoDup |].
  rewrite filter_all; [reflexivity |].
  intros r Hr. apply existsb_seen, unique_In, in_map. assumption.
Qed.

End Cities.

Section ParallelRun.

Lemma replace_at_last {A : Type} (h : list A) (a b : A) :
  replace_at (length h) a (h ++ [b]) = h ++ [a].
Proof. induction h as [|c h IH]; simpl; [reflexivity |]. rewrite IH. reflexivity. Qed.

Lemma nth_error_last {A : Type} (h l : list A) (a : A) :
  nth_error (h ++ a :: l) (length h) = Some a.
Proof. rewrite nth_error_app2 by lia. rewrite Nat.sub_diag. reflexivity. Qed.

Lemma map_M_new_frames {A : Type} (g : A -> DataFrame) (l : list A)
    (h : list DataFrame) (out : list message) :
  map_M (fun a => new_frame (g a)) l (mkWorld h out)
  = (Ok (seq (length h) (length l)), mkWorld (h ++ map g l) out).
Proof.
  revert h. induction l as [|a l IH]; intros h.
  - simpl. unfold ret. rewrite app_nil_r. reflexivity.
  - cbn [map_M]. unfold bind at 1. unfold new_frame at 1. cbn [heap written].
    unfold bind at 1. rewrite IH. unfold ret.
    rewrite length_app, Nat.add_1_r, <- app_assoc. reflexivity.
Qed.

Lemma in_worker_run (h : list DataFrame) (out : list message) (r : ref) (df : DataFrame) :
  nth_error h r = Some df ->
  in_worker parallel_analyze r (mkWorld h out)
  = (Ok (length h), mkWorld (h ++ [analysed df]) out).
Proof.
  intros H. unfold in_worker.
  rewrite (bind_ok (read_frame r) _ (mkWorld h out) (mkWorld h out) df)
    by (unfold read_frame; cbn [heap]; rewrite H; reflexivity).
  rewrite (bind_ok (new_frame df) _ (mkWorld h out) (mkWorld (h ++ [df]) out) (length h) eq_refl).
  rewrite (parallel_analyze_run (mkWorld (h ++ [df]) out) (length h) df)
    by (cbn [heap]; apply nth_error_last).
  unfold put_frame. cbn [heap written]. rewrite replace_at_last. reflexivity.
Qed.

Lemma executor_map_run (refs : list ref) (dfs : list DataFrame)
    (h : list DataFrame) (out : list message) :
  Forall2 (fun r df => nth_error h r = Some df) refs dfs ->
  executor_map parallel_analyze refs (mkWorld h out)
  = (Ok (seq (length h) (length refs)), mkWorld (h ++ map analysed dfs) out).
Proof.
  unfold executor_map. intros Hall. revert h Hall.
  revert dfs. induction refs as [|r refs IH]; intros dfs h Hall.
  - inversion Hall; subst. simpl. unfold ret. rewrite app_nil_r. reflexivity.
  - inversion Hall as [|? df ? dfs' Hr Hrest]; subst.
    cbn [map_M]. unfold bind at 1. rewrite (in_worker_run h out r df Hr).
    unfold bind at 1. rewrite (IH dfs' (h ++ [analysed df])).
    + unfold ret. cbn [map length].
      rewrite length_app, Nat.add_1_r, <- app_assoc. reflexivity.
    + eapply Forall2_impl; [| exact Hrest].
      intros r' df' Hr'. simpl in Hr'. rewrite nth_error_app1; [assumption |].
      apply nth_error_Some. rewrite Hr'. discriminate.
Qed.

Lemma frames_at_the_end (h fs : list DataFrame) :
  Forall2 (fun r df => nth_error (h ++ fs) r = Some df) (seq (length h) (length fs)) fs.
Proof.
  revert h. induction fs as [|a fs IH]; intros h; simpl; constructor.
  - apply nth_error_last.
  - specialize (IH (h ++ [a])).
    rewrite length_app, Nat.add_1_r, <- app_assoc in IH. exact IH.
Qed.

Lemma map_M_read_frames (refs : list ref) (fs : list DataFrame) (w : world) :
  Forall2 (fun r df => nth_error (heap w) r = Some df) refs fs ->
  map_M read_frame refs w = (Ok fs, w).
Proof.
  intros Hall. induction Hall as [|r df refs fs Hr _ IH]; [reflexivity |].
  cbn [map_M]. unfold bind at 1. unfold read_frame at 1. rewrite Hr.
  unfold bind at 1. rewrite IH. reflexivity.
Qed.

(** The run of [analyze_in_parallel]: the slices, then the analysed copies,
    then the concatenation are added at the end of the heap. *)
Lemma analyze_in_parallel_run (h : list DataFrame) (out : list message)
    (data : ref) (df : DataFrame) :
  nth_error h data = Some df ->
  let slices := map (fun c => select_city c df) (unique (map city (rows df))) in
  analyze_in_parallel data (mkWorld h out)
  = bind (pd_concat (map analysed slices)) new_frame
      (mkWorld ((h ++ slices) ++ map analysed slices) out).
Proof.
  intros H slices. unfold analyze_in_parallel.
  rewrite (bind_ok (read_frame data) _ (mkWorld h out) (mkWorld h out) df)
    by (unfold read_frame; cbn [heap]; rewrite H; reflexivity).
  rewrite (bind_ok _ _ _ _ _
             (map_M_new_frames (fun c => select_city c df)
                (unique (map city (rows df))) h out)).
  fold slices.
  replace (length (unique (map city (rows df)))) with (length slices)
    by (unfold slices; apply length_map).
  rewrite (bind_ok _ _ _ _ _
             (executor_map_run _ slices (h ++ slices) out (frames_at_the_end h slices))).
  rewrite length_seq.
  replace (length slices) with (length (map analysed slices)) by apply length_map.
  rewrite (bind_ok _ _ _ _ _
             (map_M_read_frames _ (map analysed slices)
                (mkWorld ((h ++ slices) ++ map analysed slices) out)
                (frames_at_the_end (h ++ slices) (map analysed slices)))).
  reflexivity.
Qed.

End ParallelRun.

Lemma rows_of_analysed_slices (df : DataFrame) (cs : list string) :
  flat_map rows (map analysed (map (fun c => select_city c df) cs))
  = flat_map (fun c => filter (in_city c) (rows df)) cs.
Proof.
  induction cs as [|c cs IH]; [reflexivity |].
  cbn [map flat_map]. rewrite IH. f_equal.
  change (rows (analysed (select_city c df))) with (rows (select_city c df)).
  unfold select_city, city_mask. cbn [rows]. apply select_as_filter.
Qed.

Lemma length_flat_map_pointwise {A B C : Type} (f : A -> list B) (g : A -> list C)
    (l : list A) :
  (forall x, length (f x) = length (g x)) ->
  length (flat_map f l) = length (flat_map g l).
Proof.
  intros H. induction l as [|a l IH]; [reflexivity |].
  cbn [flat_map]. rewrite !length_app, H, IH. reflexivity.
Qed.

Lemma length_mask_analysed (df : DataFrame) :
  length (anomaly_mask (temperatures df)
            (Rolling.rolling_mean default_window (temperatures df))
            (Rolling.rolling_std default_window (temperatures df)))
  = length (rows df).
Proof.
  rewrite length_anomaly_mask; [apply length_temperatures | |];
    unfold Rolling.rolling_mean, Rolling.rolling_std; rewrite length_roll; reflexivity.
Qed.

(** X17: on a frame without rows [analyze_in_parallel] raises [ValueError]:
    there is no city, hence nothing to concatenate.  Nothing is written and no
    frame is added or changed. *)
Theorem analyze_in_parallel_no_rows (w : world) (data : ref) (df : DataFrame) :
  nth_error (heap w) data = Some df ->
  rows df = [] ->
  analyze_in_parallel data w = (Raise "ValueError"%string, w).
Proof.
  intros H Hrows. destruct w as [h out]. cbn [heap] in H.
  rewrite (analyze_in_parallel_run h out data df H). rewrite Hrows.
  cbn [map unique unique_from]. rewrite !app_nil_r. reflexivity.
Qed.

Lemma analyze_in_parallel_no_rows_witness :
  analyze_in_parallel 0 (mkWorld [load_data []] [])
  = (Raise "ValueError"%string, mkWorld [load_data []] []).
Proof.
  apply (analyze_in_parallel_no_rows (mkWorld [load_data []] []) 0%nat (load_data []));
    reflexivity.
Defined.

Lemma flat_map_analysed {B : Type} (f : DataFrame -> list B) (slices : list DataFrame) :
  flat_map f (map analysed slices) = flat_map (fun s => f (analysed s)) slices.
Proof.
  induction slices as [|s l IH]; [reflexivity |].
  cbn [map flat_map]. rewrite IH. reflexivity.
Qed.

Lemma pd_concat_analysed (slices : list DataFrame) (w : world) :
  slices <> [] ->
  pd_concat (map analysed slices) w = (Ok (concat_analysed slices), w).
Proof.
  intros Hne. destruct slices as [|s0 l]; [congruence |].
  unfold pd_concat, ret. cbn [map]. f_equal. f_equal.
  unfold concat_analysed. f_equal.
  - change (analysed s0 :: map analysed l) with (map analysed (s0 :: l)).
    rewrite flat_map_analysed. reflexivity.
  - unfold concat_fnum. cbn [existsb]. cbn [analysed moving_avg set_anomaly
      with_moving_columns set_moving_std set_moving_avg has_column orb].
    f_equal.
    change (analysed s0 :: map analysed l) with (map analysed (s0 :: l)).
    rewrite flat_map_analysed. reflexivity.
  - unfold concat_fnum. cbn [existsb]. cbn [analysed moving_std set_anomaly
      with_moving_columns set_moving_std set_moving_avg has_column orb].
    f_equal.
    change (analysed s0 :: map analysed l) with (map analysed (s0 :: l)).
    rewrite flat_map_analysed. reflexivity.
  - unfold concat_anomaly.
    change (analysed s0 :: map analysed l) with (map analysed (s0 :: l)).
    assert (Hall : forallb (fun df0 => has_column (anomaly df0)) (map analysed (s0 :: l))
                   = true).
    { generalize (s0 :: l). intros l0. induction l0 as [|s l0 IH]; [reflexivity |].
      cbn [map forallb]. rewrite IH. reflexivity. }
    rewrite Hall, flat_map_analysed. reflexivity.
Qed.

Lemma slices_nonempty (df : DataFrame) :
  rows df <> [] ->
  map (fun c => select_city c df) (unique (map city (rows df))) <> [].
Proof.
  intros Hrows E. apply map_eq_nil in E. apply unique_nil_iff in E.
  apply Hrows. destruct (rows df); [reflexivity | discriminate].
Qed.

Lemma analyze_in_parallel_ok (h : list DataFrame) (out : list message)
    (data : ref) (df : DataFrame) :
  nth_error h data = Some df ->
  rows df <> [] ->
  let slices := map (fun c => select_city c df) (unique (map city (rows df))) in
  analyze_in_parallel data (mkWorld h out)
  = (Ok (length ((h ++ slices) ++ map analysed slices)),
     mkWorld (((h ++ slices) ++ map analysed slices) ++ [concat_analysed slices]) out).
Proof.
  intros H Hrows slices.
  rewrite (analyze_in_parallel_run h out data df H). fold slices.
  unfold bind. rewrite (pd_concat_analysed slices _ (slices_nonempty df Hrows)).
  reflexivity.
Qed.

(** X18: on a frame with rows [analyze_in_parallel] succeeds and returns a new
    frame.  Its rows are the readings of the input regrouped by city, the
    cities in order of first appearance and the readings of a city in their
    input order, so every reading is there exactly once; the three analysis
    columns hold one cell per row.  The input frame and every frame that
    existed before are unchanged, and nothing is written. *)
Theorem analyze_in_parallel_regroups (w : world) (data : ref) (df : DataFrame) :
  nth_error (heap w) data = Some df ->
  rows df <> [] ->
  exists result w' out avg sd flags,
    analyze_in_parallel data w = (Ok result, w') /\
    nth_error (heap w') result = Some out /\
    rows out = flat_map (fun c => filter (in_city c) (rows df)) (unique (map city (rows df))) /\
    Permutation (rows out) (rows df) /\
    moving_avg out = Some avg /\
    moving_std out = Some sd /\
    anomaly out = Some flags /\
    length avg = length (rows out) /\
    length sd = length (rows out) /\
    length flags = length (rows out) /\
    (forall r, (r < length (heap w))%nat -> nth_error (heap w') r = nth_error (heap w) r) /\
    written w' = written w.
Proof.
  intros H Hrows. destruct w as [h out]. cbn [heap written] in *.
  set (cities := unique (map city (rows df))).
  set (slices := map (fun c => select_city c df) cities).
  assert (Hout_rows : flat_map rows slices
                      = flat_map (fun c => filter (in_city c) (rows df)) cities).
  { rewrite <- rows_of_analysed_slices. fold slices. rewrite flat_map_analysed. reflexivity. }
  exists (length ((h ++ slices) ++ map analysed slices)),
    (mkWorld (((h ++ slices) ++ map analysed slices) ++ [concat_analysed slices]) out),
    (concat_analysed slices).
  eexists. eexists. eexists.
  split.
  { apply (analyze_in_parallel_ok h out data df H Hrows). }
  split; [cbn [heap]; apply nth_error_last |].
  cbn [concat_analysed rows moving_avg moving_std anomaly heap written].
  split; [exact Hout_rows |].
  split; [rewrite Hout_rows; apply regroup_unique |].
  split; [reflexivity |]. split; [reflexivity |]. split; [reflexivity |].
  split; [apply length_flat_map_pointwise; intros s; apply length_rolling |].
  split; [apply length_flat_map_pointwise; intros s; apply length_rolling |].
  split; [apply length_flat_map_pointwise; intros s; apply length_mask_analysed |].
  split; [| reflexivity].
  intros r Hr. rewrite <- !app_assoc. apply nth_error_app1. assumption.
Qed.

Lemma analyze_in_parallel_regroups_witness :
  exists result w' out,
    analyze_in_parallel 0
      (mkWorld [load_data [mkReading "Berlin" 1 "winter" 5; mkReading "Cairo" 1 "winter" 20;
                           mkReading "Berlin" 2 "winter" 7]] [])
    = (Ok result, w') /\
    nth_error (heap w') result = Some out /\
    rows out = [mkReading "Berlin" 1 "winter" 5; mkReading "Berlin" 2 "winter" 7;
                mkReading "Cairo" 1 "winter" 20].
Proof.
  destruct (analyze_in_parallel_regroups
              (mkWorld [load_data [mkReading "Berlin" 1 "winter" 5;
                                   mkReading "Cairo" 1 "winter" 20;
                                   mkReading "Berlin" 2 "winter" 7]] [])
              0%nat _ eq_refl)
    as (result & w' & out & _ & _ & _ & Hrun & Hat & Hrows & _).
  - discriminate.
  - exists result, w', out. repeat split; assumption.
Defined.

Lemma unique_from_all_seen (seen l : list string) :
  (forall x, In x l -> In x seen) -> unique_from seen l = [].
Proof.
  induction l as [|a l IH]; intros H; simpl; [reflexivity |].
  rewrite (proj2 (existsb_seen a seen) (H a (or_introl eq_refl))).
  apply IH. intros x Hx. apply H. right. exact Hx.
Qed.

Lemma unique_single (l : list string) (c : string) :
  l <> [] -> (forall x, In x l -> x = c) -> unique l = [c].
Proof.
  intros Hne Hall. destruct l as [|a l]; [congruence |].
  assert (Ha : a = c) by (apply Hall; left; reflexivity). subst a.
  unfold unique. simpl. f_equal. apply unique_from_all_seen.
  intros x Hx. left. symmetry. apply Hall. right. exact Hx.
Qed.

(** X19: on a frame whose readings are all of one city, as in the call
    [analyze_in_parallel(city_data)] that [main] keeps in a comment,
    [analyze_in_parallel] builds the very frame [parallel_analyze] computes,
    with one difference: [parallel_analyze] writes it over its argument, while
    [analyze_in_parallel] returns it as a new frame and leaves its argument as
    it was. *)
Theorem analyze_in_parallel_single_city
    (w : world) (data : ref) (df : DataFrame) (c : string) :
  nth_error (heap w) data = Some df ->
  rows df <> [] ->
  (forall r, In r (rows df) -> city r = c) ->
  exists result w1 w2 a,
    analyze_in_parallel data w = (Ok result, w1) /\
    parallel_analyze data w = (Ok data, w2) /\
    nth_error (heap w1) result = Some a /\
    nth_error (heap w2) data = Some a /\
    nth_error (heap w1) data = Some df /\
    result <> data.
Proof.
  intros H Hrows Hcity. destruct w as [h out]. cbn [heap] in H.
  assert (Hdata : (data < length h)%nat) by (apply nth_error_Some; rewrite H; discriminate).
  assert (Hcities : unique (map city (rows df)) = [c]).
  { apply unique_single.
    - intros E. apply map_eq_nil in E. contradiction.
    - intros x Hx. apply in_map_iff in Hx. destruct Hx as (r & <- & Hr). auto. }
  assert (Hslice : rows (select_city c df) = rows df).
  { unfold select_city, city_mask. cbn [rows]. rewrite select_as_filter.
    apply filter_all. intros r Hr. unfold in_city. apply String.eqb_eq. auto. }
  assert (Hframe : concat_analysed [select_city c df] = analysed df).
  { unfold concat_analysed, analysed, with_moving_columns, set_anomaly, set_moving_std,
      set_moving_avg, temperatures. cbn [flat_map rows moving_avg moving_std anomaly].
    rewrite !app_nil_r, Hslice. reflexivity. }
  pose proof (analyze_in_parallel_ok h out data df H Hrows) as Hrun.
  cbv zeta in Hrun. rewrite Hcities in Hrun. cbn [map] in Hrun. rewrite Hframe in Hrun.
  eexists. eexists. exists (put_frame data (analysed df) (mkWorld h out)), (analysed df).
  split; [exact Hrun |].
  split; [apply parallel_analyze_run; exact H |].
  split; [cbn [heap]; apply nth_error_last |].
  split; [eapply nth_error_put_frame; exact H |].
  split.
  - cbn [heap]. rewrite <- !app_assoc. rewrite nth_error_app1; assumption.
  - rewrite !length_app. simpl. lia.
Qed.

Lemma analyze_in_parallel_single_city_witness :
  exists result w1 w2 a,
    analyze_in_parallel 0
      (mkWorld [load_data [mkReading "Berlin" 1 "winter" 5; mkReading "Berlin" 2 "winter" 7]] [])
    = (Ok result, w1) /\
    parallel_analyze 0
      (mkWorld [load_data [mkReading "Berlin" 1 "winter" 5; mkReading "Berlin" 2 "winter" 7]] [])
    = (Ok 0%nat, w2) /\
    nth_error (heap w1) result = Some a /\
    nth_error (heap w2) 0 = Some a.
Proof.
  destruct (analyze_in_parallel_single_city
              (mkWorld [load_data [mkReading "Berlin" 1 "winter" 5;
                                   mkReading "Berlin" 2 "winter" 7]] [])
              0%nat _ "Berlin"%string eq_refl)
    as (result & w1 & w2 & a & Hr1 & Hr2 & Ha1 & Ha2 & _).
  - discriminate.
  - intros r [<- | [<- | []]]; reflexivity.
  - exists result, w1, w2, a. repeat split; assumption.
Defined.

(** ** What the verdict of [main] depends on *)

Lemma select_stats_aggregate (data : list Reading) (c s : string) :
  select_stats (aggregate data) c s
  = match Spec.group data c s with
    | [] => []
    | _ :: _ =>
        [mkStat c s (Stats.mean (map temperature (Spec.group data c s)))
                    (Stats.std (map temperature (Spec.group data c s)))]
    end.
Proof.
  destruct (Spec.group data c s) as [|r g] eqn:E.
  - apply select_stats_none. intros Hin. apply in_map_iff in Hin.
    destruct Hin as (st & Hk & Hst). apply aggregate_In in Hst.
    destruct Hst as (c' & s' & Hne & ->). unfold stat_key in Hk. simpl in Hk.
    injection Hk as -> ->. contradiction.
  - rewrite <- E.
    apply (select_stats_unique (aggregate data)
             (mkStat c s (Stats.mean (map temperature (Spec.group data c s)))
                         (Stats.std (map temperature (Spec.group data c s))))
             (aggregate_NoDup data)).
    apply aggregate_In. exists c, s. split; [rewrite E; discriminate | reflexivity].
Qed.

Lemma group_of_city_slice (data : list Reading) (c s : string) :
  Spec.group (filter (in_city c) data) c s = Spec.group data c s.
Proof.
  unfold Spec.group, in_city. induction data as [|r data IH]; simpl; [reflexivity |].
  destruct (String.eqb (city r) c) eqn:Ec; simpl; rewrite ?Ec; simpl; rewrite IH; reflexivity.
Qed.

Lemma city_slice_twice (data : list Reading) (c : string) :
  filter (in_city c) (filter (in_city c) data) = filter (in_city c) data.
Proof.
  apply filter_all. intros r Hr. apply filter_In in Hr. tauto.
Qed.

Lemma assess_outcome (A B : list SeasonalStat) (c s : string) (ct : fetched)
    (w1 w2 : world) :
  select_stats A c s = select_stats B c s ->
  written w1 = written w2 ->
  fst (assess A c s ct w1) = fst (assess B c s ct w2) /\
  written (snd (assess A c s ct w1)) = written (snd (assess B c s ct w2)).
Proof.
  intros Hsel Hw. unfold assess. rewrite Hsel.
  destruct (select_stats B c s) as [|st rest]; [split; [reflexivity | exact Hw] |].
  unfold bind, first_of, ret. cbn -[fle lower_bound upper_bound].
  destruct ct as [t | code msg |]; cbn -[fle lower_bound upper_bound];
    try (split; [reflexivity | exact Hw]).
  destruct (fle _ _ && fle _ _); cbn; rewrite Hw; split; reflexivity.
Qed.

(** X20: the readings of the other cities have no part in what [main] shows
    for the selected city: run on the whole file or on the rows of that city
    alone, [main] ends in the same way (normally or on the same exception) and
    writes the same lines. *)
Theorem main_ignores_other_cities (requests_get : string -> response)
    (f : list Reading) (city api_key : string) :
  fst (main requests_get (Some f) city api_key empty_world)
  = fst (main requests_get (Some (filter (in_city city) f)) city api_key empty_world) /\
  written (snd (main requests_get (Some f) city api_key empty_world))
  = written (snd (main requests_get (Some (filter (in_city city) f)) city api_key
                    empty_world)).
Proof.
  rewrite !main_after_analysis.
  destruct (String.eqb api_key EmptyString); [split; reflexivity |].
  set (ct := fetch_temperature_sync requests_get city api_key).
  set (W1 := mkWorld [load_data f; analysed (select_city city (load_data f))] []).
  set (W2 := mkWorld [load_data (filter (in_city city) f);
                      analysed (select_city city (load_data (filter (in_city city) f)))] []).
  assert (Hr1 : rows (analysed (select_city city (load_data f))) = filter (in_city city) f)
    by apply rows_analysed_slice.
  assert (Hr2 : rows (analysed (select_city city (load_data (filter (in_city city) f))))
                = filter (in_city city) f)
    by (rewrite rows_analysed_slice; apply city_slice_twice).
  destruct ct as [t | code msg |] eqn:Ect; [| | split; reflexivity].
  - destruct (filter (in_city city) f) as [|r0 rest] eqn:Eslice.
    + unfold monitoring, bind, st_write, read_frame. cbn [heap written nth_error W1 W2].
      rewrite Hr1, Hr2. split; reflexivity.
    + rewrite (monitoring_first_row 1 _ city (FetchedTemp t) W1 _ r0 rest eq_refl Hr1)
        by discriminate.
      rewrite (monitoring_first_row 1 _ city (FetchedTemp t) W2 _ r0 rest eq_refl Hr2)
        by discriminate.
      apply assess_outcome; [| reflexivity].
      rewrite !select_stats_aggregate, <- Eslice, group_of_city_slice. reflexivity.
  - destruct (filter (in_city city) f) as [|r0 rest] eqn:Eslice.
    + unfold monitoring, bind, st_write, read_frame. cbn [heap written nth_error W1 W2].
      rewrite Hr1, Hr2. split; reflexivity.
    + rewrite (monitoring_first_row 1 _ city (FetchedError code msg) W1 _ r0 rest
                 eq_refl Hr1) by discriminate.
      rewrite (monitoring_first_row 1 _ city (FetchedError code msg) W2 _ r0 rest
                 eq_refl Hr2) by discriminate.
      apply assess_outcome; [| reflexivity].
      rewrite !select_stats_aggregate, <- Eslice, group_of_city_slice. reflexivity.
Qed.

(** X21: when the season of the first row of the selected city has that row as
    its only reading, [main] reports every numeric reply as outside the normal
    range. *)
Theorem main_single_reading_season (requests_get : string -> response)
    (f : list Reading) (city api_key : string) (r0 : Reading) (rest : list Reading) :
  api_key <> EmptyString ->
  status_code (requests_get (weather_url city api_key)) = 200%Z ->
  filter (in_city city) f = r0 :: rest ->
  length (Spec.group f city (season r0)) = 1%nat ->
  exists w',
    main requests_get (Some f) city api_key empty_world = (Ok tt, w') /\
    written w'
    = [CurrentTemperature city
         (FetchedTemp (json_main_temp (requests_get (weather_url city api_key))));
       OutsideRange].
Proof.
  intros Hkey H200 Hslice Hone.
  rewrite main_after_analysis, (key_given _ Hkey), (fetch_status_200 _ _ _ H200).
  set (t := json_main_temp (requests_get (weather_url city api_key))).
  set (W := mkWorld [load_data f; analysed (select_city city (load_data f))] []).
  assert (Hrows : rows (analysed (select_city city (load_data f))) = r0 :: rest)
    by (rewrite rows_analysed_slice; assumption).
  rewrite (monitoring_first_row 1 (aggregate f) city (FetchedTemp t) W
             (analysed (select_city city (load_data f))) r0 rest eq_refl Hrows)
    by discriminate.
  pose proof (select_stats_aggregate f city (season r0)) as Hsel.
  destruct (Spec.group f city (season r0)) as [|r g] eqn:E; [discriminate |].
  rewrite (assess_run _ _ _ _ [] t _ Hsel).
  assert (Hstd : Stats.std (map temperature (r :: g)) = NaN).
  { unfold Stats.std. rewrite length_map, Hone. reflexivity. }
  cbn [stat_mean stat_std]. rewrite Hstd.
  destruct (Stats.mean (map temperature (r :: g))); eexists; split; reflexivity.
Qed.

Lemma main_single_reading_season_witness :
  exists w',
    main (fun _ => mkResponse 200 5)
      (Some [mkReading "Berlin" 1 "winter" 5; mkReading "Berlin" 2 "spring" 7;
             mkReading "Berlin" 3 "spring" 9])
      "Berlin" "secret" empty_world
    = (Ok tt, w') /\
    written w' = [CurrentTemperature "Berlin" (FetchedTemp 5); OutsideRange].
Proof.
  apply (main_single_reading_season (fun _ => mkResponse 200 5)
           [mkReading "Berlin" 1 "winter" 5; mkReading "Berlin" 2 "spring" 7;
            mkReading "Berlin" 3 "spring" 9]
           "Berlin" "secret" (mkReading "Berlin" 1 "winter" 5)
           [mkReading "Berlin" 2 "spring" 7; mkReading "Berlin" 3 "spring" 9]).
  - discriminate.
  - reflexivity.
  - reflexivity.
  - reflexivity.
Defined.
